(** * Zenith extension: the session client

    A shallow embedding of the extension's session client:
    - [useWebSocket] (the hook that owns the connection, the progress
      history and the result),
    - [IntentBar] and [App] (the submit path and its gating),
    - [AgentHUD] (the projections of the hook state that are rendered).

    The hook is event driven.  Its callbacks are embedded as functions on an
    explicit state; the browser (the WebSocket objects, the timer queue and
    the clock) is part of that state, and a step function says which event
    the browser may deliver in which state. *)

From Stdlib Require Import ZArith Lia String Ascii Bool.
From stdpp Require Import base list strings.

Open Scope string_scope.
Open Scope list_scope.

(** ** JavaScript values

    The inbound frames are untyped: [JSON.parse] yields an arbitrary value
    and the hook stores it without validation ([msg as StateUpdate] is an
    unchecked cast).  Numbers are restricted to integers, which is all the
    protocol carries. *)

Module JS.

#[warnings="-register-all"]
Inductive Value : Type :=
| Undefined
| Null
| Bool (b : bool)
| Num (n : Z)
| Str (s : string)
| Arr (elems : list Value)
| Obj (props : list (string * Value)).

(** Own data property of an object literal; a missing key reads [undefined]. *)
Fixpoint own_prop (props : list (string * Value)) (key : string) : Value :=
  match props with
  | [] => Undefined
  | (k, v) :: rest => if String.eqb k key then v else own_prop rest key
  end.

(** [v.key] for a data property.  Reading a property of [null] or
    [undefined] throws a TypeError ([None]).  Strings and arrays expose
    [length]; every other key read here ([type], [summary], [sub_tasks]) is
    [undefined] on a primitive or an array. *)
Definition get (v : Value) (key : string) : option Value :=
  match v with
  | Undefined | Null => None
  | Obj props => Some (own_prop props key)
  | Str s =>
      Some (if String.eqb key "length" then Num (Z.of_nat (String.length s))
            else Undefined)
  | Arr elems =>
      Some (if String.eqb key "length" then Num (Z.of_nat (length elems))
            else Undefined)
  | Bool _ | Num _ => Some Undefined
  end.

(** [v === "lit"] against a string literal. *)
Definition strict_eq_str (v : Value) (lit : string) : bool :=
  match v with
  | Str s => String.eqb s lit
  | _ => false
  end.

(** ToBoolean. *)
Definition truthy (v : Value) : bool :=
  match v with
  | Undefined | Null => false
  | Bool b => b
  | Num n => negb (n =? 0)%Z
  | Str s => negb (String.eqb s "")
  | Arr _ | Obj _ => true
  end.

(** A text frame on the wire.  A frame is kept as what [JSON.parse] makes of
    it: [NotJSON] is any text on which [JSON.parse] throws a SyntaxError,
    [Json v] is a text that parses to [v]; [JSON.stringify v] is the text
    that parses back to [v]. *)
Inductive Frame : Type :=
| NotJSON (raw : string)
| Json (v : Value).

Definition JSON_parse (data : Frame) : option Value :=
  match data with
  | NotJSON _ => None
  | Json v => Some v
  end.

Definition JSON_stringify (v : Value) : Frame := Json v.

(** Whitespace and line terminators removed by [String.prototype.trim],
    for code units below 256: TAB, LF, VT, FF, CR, SPACE, NBSP. *)
Definition is_space (c : ascii) : bool :=
  let n := nat_of_ascii c in
  (Nat.eqb n 9 || Nat.eqb n 10 || Nat.eqb n 11 || Nat.eqb n 12
   || Nat.eqb n 13 || Nat.eqb n 32 || Nat.eqb n 160)%bool.

Fixpoint trimStart (s : string) : string :=
  match s with
  | EmptyString => EmptyString
  | String c rest => if is_space c then trimStart rest else s
  end.

Fixpoint trimEnd (s : string) : string :=
  match s with
  | EmptyString => EmptyString
  | String c rest =>
      let rest' := trimEnd rest in
      if (is_space c && String.eqb rest' "")%bool then EmptyString
      else String c rest'
  end.

Definition trim (s : string) : string := trimEnd (trimStart s).

(** Every code unit of [s] is white space (the empty string included). *)
Fixpoint whitespace_only (s : string) : bool :=
  match s with
  | EmptyString => true
  | String c rest => (is_space c && whitespace_only rest)%bool
  end.

(** *** Conversions

    Values that come from [JSON.parse] hold no function, so an object's
    conversion to a primitive can only use the methods it inherits: it
    yields ["[object Object]"], and throws a TypeError when the object has
    an own property [toString], which hides the inherited method and
    cannot be called.  An array converts by [join], which converts its
    elements in turn ([null] and [undefined] to the empty string). *)


















End JS.

(** ** The WebSocket objects of the page *)

Module WebSocket.

Inductive ReadyState : Type := CONNECTING | OPEN | CLOSING | CLOSED.

Definition ReadyState_eqb (a b : ReadyState) : bool :=
  match a, b with
  | CONNECTING, CONNECTING | OPEN, OPEN | CLOSING, CLOSING | CLOSED, CLOSED => true
  | _, _ => false
  end.

(** One socket: its ready state and the frames it has put on the wire. *)
Record t : Type := mk {
  readyState : ReadyState;
  sent : list JS.Frame
}.

(** [new WebSocket(WS_URL)]. *)
Definition new : t := {| readyState := CONNECTING; sent := [] |}.

Definition set_readyState (r : ReadyState) (s : t) : t :=
  {| readyState := r; sent := sent s |}.

(** [ws.close()]: starts the closing handshake of a socket that is
    connecting or open, and does nothing on one that is closing or closed.
    The close event is delivered later, by the browser. *)
Definition close (s : t) : t :=
  match readyState s with
  | CONNECTING | OPEN => set_readyState CLOSING s
  | CLOSING | CLOSED => s
  end.

(** [ws.send(data)]: throws InvalidStateError while connecting ([None]),
    transmits when open, and silently discards the data afterwards. *)
Definition send (data : JS.Frame) (s : t) : option t :=
  match readyState s with
  | CONNECTING => None
  | OPEN => Some {| readyState := OPEN; sent := sent s ++ [data] |}
  | CLOSING | CLOSED => Some s
  end.

End WebSocket.

Import WebSocket.

(** ** The hook [useWebSocket] *)

Definition RECONNECT_INTERVAL_MS : Z := 3000%Z.


Inductive Status : Type := connecting | connected | disconnected.

Definition Status_eqb (a b : Status) : bool :=
  match a, b with
  | connecting, connecting | connected, connected
  | disconnected, disconnected => true
  | _, _ => false
  end.

(** The state the hook works on.  [status], [updates] and [summary] are the
    three [useState] cells and [wsRef] is the ref; a socket is named by its
    position in [sockets], the list of every [WebSocket] the hook has
    constructed, in order of construction.  [timers] holds the due time of
    each pending [setTimeout(connect, ...)] and [now] is the clock, in
    milliseconds. *)
Record Hook : Type := mkHook {
  status : Status;
  updates : list JS.Value;
  summary : JS.Value;
  wsRef : option nat;
  sockets : list WebSocket.t;
  timers : list Z;
  now : Z
}.

(** The state at the first render. *)
Definition useWebSocket : Hook :=
  {| status := connecting; updates := []; summary := JS.Null; wsRef := None;
     sockets := []; timers := []; now := 0%Z |}.

Definition setStatus (s : Status) (h : Hook) : Hook :=
  mkHook s (updates h) (summary h) (wsRef h) (sockets h) (timers h) (now h).

Definition setUpdates (f : list JS.Value -> list JS.Value) (h : Hook) : Hook :=
  mkHook (status h) (f (updates h)) (summary h) (wsRef h) (sockets h)
         (timers h) (now h).

Definition setSummary (v : JS.Value) (h : Hook) : Hook :=
  mkHook (status h) (updates h) v (wsRef h) (sockets h) (timers h) (now h).

Definition set_wsRef (r : option nat) (h : Hook) : Hook :=
  mkHook (status h) (updates h) (summary h) r (sockets h) (timers h) (now h).

Definition set_sockets (l : list WebSocket.t) (h : Hook) : Hook :=
  mkHook (status h) (updates h) (summary h) (wsRef h) l (timers h) (now h).

Definition set_timers (l : list Z) (h : Hook) : Hook :=
  mkHook (status h) (updates h) (summary h) (wsRef h) (sockets h) l (now h).

Definition set_now (t : Z) (h : Hook) : Hook :=
  mkHook (status h) (updates h) (summary h) (wsRef h) (sockets h) (timers h) t.

(** [setTimeout(f, delay)] for [f = connect], the only callback ever timed. *)
Definition setTimeout_connect (delay : Z) (h : Hook) : Hook :=
  set_timers (timers h ++ [(now h + delay)%Z]) h.

(** [wsRef.current?.readyState === WebSocket.OPEN]. *)
Definition current_is_open (h : Hook) : bool :=
  match wsRef h with
  | Some i =>
      match sockets h !! i with
      | Some s => ReadyState_eqb (readyState s) OPEN
      | None => false
      end
  | None => false
  end.

(** [connect]: returns at once when the current socket is open; otherwise
    constructs a socket, stores it in [wsRef] and attaches the four
    handlers below to it. *)
Definition connect (h : Hook) : Hook :=
  if current_is_open h then h
  else
    let ws := length (sockets h) in
    set_wsRef (Some ws) (set_sockets (sockets h ++ [WebSocket.new]) h).

(** [ws.onopen]. *)
Definition ws_onopen (h : Hook) : Hook := setStatus connected h.

(** [ws.onmessage]; both a SyntaxError of [JSON.parse] and a TypeError of
    [msg.type] land in the empty [catch]. *)
Definition ws_onmessage (data : JS.Frame) (h : Hook) : Hook :=
  match JS.JSON_parse data with
  | None => h
  | Some msg =>
      match JS.get msg "type" with
      | None => h
      | Some ty =>
          if JS.strict_eq_str ty "state_update" then
            setUpdates (fun prev => prev ++ [msg]) h
          else if JS.strict_eq_str ty "result" then
            match JS.get msg "summary" with
            | Some s => setSummary s h
            | None => h
            end
          else h
      end
  end.

(** [ws.onclose]. *)
Definition ws_onclose (h : Hook) : Hook :=
  setTimeout_connect RECONNECT_INTERVAL_MS (setStatus disconnected h).

(** [ws.onerror] of the socket [ws]: [ws.close()]. *)
Definition ws_onerror (ws : nat) (h : Hook) : Hook :=
  set_sockets (alter WebSocket.close ws (sockets h)) h.

(** The effect body and its cleanup. *)
Definition effect_mount (h : Hook) : Hook := connect h.

Definition effect_cleanup (h : Hook) : Hook :=
  match wsRef h with
  | Some i => set_sockets (alter WebSocket.close i (sockets h)) h
  | None => h
  end.

(** How a callback ends. *)
Inductive Completion : Type := Normal | Throw.

(** [wsRef.current?.send(data)]. *)
Definition current_send (data : JS.Frame) (h : Hook) : Hook * Completion :=
  match wsRef h with
  | None => (h, Normal)
  | Some i =>
      match sockets h !! i with
      | None => (h, Normal)
      | Some s =>
          match WebSocket.send data s with
          | Some s' => (set_sockets (<[i := s']> (sockets h)) h, Normal)
          | None => (h, Throw)
          end
      end
  end.

Definition intent_message (intent : string) : JS.Value :=
  JS.Obj [("type", JS.Str "intent"); ("payload", JS.Str intent)].

(** [sendIntent]. *)
Definition sendIntent (intent : string) (h : Hook) : Hook * Completion :=
  let h1 := setUpdates (fun _ => []) h in
  let h2 := setSummary JS.Null h1 in
  current_send (JS.JSON_stringify (intent_message intent)) h2.

(** ** The components *)

(** The state of the rendered tree: the hook's state, [App]'s [showHUD] and
    [IntentBar]'s [value]. *)
Record AppState : Type := mkApp {
  hook : Hook;
  showHUD : bool;
  value : string
}.

Module IntentBar.

(** [handleSubmit], with the two props it reads. *)
Definition handleSubmit
    (onSubmit : string -> AppState -> AppState * Completion)
    (disabled : bool) (a : AppState) : AppState * Completion :=
  let trimmed := JS.trim (value a) in
  if (negb (JS.truthy (JS.Str trimmed)) || disabled)%bool then (a, Normal)
  else
    match onSubmit trimmed a with
    | (a', Normal) => (mkApp (hook a') (showHUD a') "", Normal)
    | (a', Throw) => (a', Throw)
    end.

(** The submit chip is rendered under [value.trim() && !disabled]. *)
Definition submitChip (disabled : bool) (a : AppState) : bool :=
  (JS.truthy (JS.Str (JS.trim (value a))) && negb disabled)%bool.

(** The keyboard shortcut hint is rendered under [!value]. *)
Definition shortcutHint (a : AppState) : bool :=
  negb (JS.truthy (JS.Str (value a))).

End IntentBar.

Module App.

(** [handleSubmit]. *)
Definition handleSubmit (intent : string) (a : AppState)
    : AppState * Completion :=
  match sendIntent intent (hook a) with
  | (h', Normal) => (mkApp h' true (value a), Normal)
  | (h', Throw) => (mkApp h' (showHUD a) (value a), Throw)
  end.

(** The prop [disabled={status !== "connected"}] handed to [IntentBar]. *)
Definition disabled (a : AppState) : bool :=
  negb (Status_eqb (status (hook a)) connected).

(** The form's submit handler as [App] wires it. *)
Definition submit (a : AppState) : AppState * Completion :=
  IntentBar.handleSubmit handleSubmit (disabled a) a.

(** The header text, [status === "connected" ? "connected" : "offline"]. *)
Definition headerText (a : AppState) : string :=
  if Status_eqb (status (hook a)) connected then "connected" else "offline".

End App.

Module AgentHUD.

(** [updates[updates.length - 1] ?? null]. *)
Definition latest (updates : list JS.Value) : JS.Value :=
  match last updates with
  | None | Some JS.Undefined | Some JS.Null => JS.Null
  | Some u => u
  end.





(** The final summary, [summary && (<div> ... {summary} ... </div>)]:
    [Some v] when the panel is rendered, [v] being its text child. *)
Definition resultPanel (summary : JS.Value) : option JS.Value :=
  if JS.truthy summary then Some summary else None.


Definition STATUS_COLORS : list (string * string) :=
  [("pending", "bg-zen-muted/40");
   ("running", "bg-yellow-500/80 animate-pulse");
   ("done", "bg-emerald-500/80");
   ("failed", "bg-red-500/80")].

(** The names every object literal inherits from [Object.prototype]; read
    through such a name, a table yields a function or an object, not one
    of its strings. *)
Definition Object_prototype_members : list string :=
  ["constructor"; "hasOwnProperty"; "isPrototypeOf"; "propertyIsEnumerable";
   "toLocaleString"; "toString"; "valueOf"; "__proto__";
   "__defineGetter__"; "__defineSetter__"; "__lookupGetter__";
   "__lookupSetter__"].

Fixpoint table_get (table : list (string * string)) (key : string)
    : option string :=
  match table with
  | [] => None
  | (k, v) :: rest => if String.eqb k key then Some v else table_get rest key
  end.

(** The dot of a sub-task whose [status] is the string [st],
    [STATUS_COLORS[t.status] ?? "bg-zen-muted/40"]: the table's own entry,
    else [None] for an inherited member (which is not nullish, so the
    fallback is not taken), else the fallback. *)
Definition statusColor (st : string) : option string :=
  match table_get STATUS_COLORS st with
  | Some c => Some c
  | None =>
      if existsb (String.eqb st) Object_prototype_members then None
      else Some "bg-zen-muted/40"
  end.

(** The class of a sub-task's text,
    [t.status === "done" ? "text-zen-muted line-through" : "text-zen-text"]. *)
Definition textClass (st : JS.Value) : string :=
  if JS.strict_eq_str st "done" then "text-zen-muted line-through"
  else "text-zen-text".

End AgentHUD.

(** ** Events

    What the page can do to the hook.  The guards on the socket events are
    those of the WebSocket interface: [open] is delivered to a connecting
    socket, [message] to an open one; a socket receives [close] once, with
    its ready state already [CLOSED]; [error] is only ever delivered
    together with that [close], just before it.  A timer fires once, not
    before it is due.

    [Mount] is a run of the effect body and [Unmount] a run of its cleanup.
    React runs the body when the tree mounts and the cleanup when it is
    disposed; it runs the pair again when it re-runs the effect, as it does
    once after mounting in a development build under StrictMode.  [Elapse]
    moves the clock; [Change], [Submit] and [CloseHUD] are the user typing,
    submitting the form and closing the HUD. *)

Inductive Event : Type :=
| Mount
| Unmount
| SocketOpen (ws : nat)
| SocketMessage (ws : nat) (data : JS.Frame)
| SocketError (ws : nat)
| SocketClose (ws : nat)
| TimerFire (k : nat)
| Elapse (dt : Z)
| Change (v : string)
| Submit
| CloseHUD.

(** Deliver an event to socket [ws]: allowed when [guard] holds of its ready
    state, which then becomes [after], and the handler [k] runs. *)
Definition deliver (ws : nat) (guard : ReadyState -> bool)
    (after : ReadyState) (k : Hook -> Hook) (h : Hook) : option Hook :=
  match sockets h !! ws with
  | Some s =>
      if guard (readyState s) then
        Some (k (set_sockets (<[ws := set_readyState after s]> (sockets h)) h))
      else None
  | None => None
  end.

Definition not_closed (r : ReadyState) : bool := negb (ReadyState_eqb r CLOSED).

(** The events that reach the hook; typing, submitting and closing the HUD
    are handled by the components, in [step]. *)
Definition hook_step (e : Event) (h : Hook) : option Hook :=
  match e with
  | Mount => Some (effect_mount h)
  | Unmount => Some (effect_cleanup h)
  | SocketOpen ws => deliver ws (ReadyState_eqb CONNECTING) OPEN ws_onopen h
  | SocketMessage ws data =>
      deliver ws (ReadyState_eqb OPEN) OPEN (ws_onmessage data) h
  | SocketError ws =>
      deliver ws not_closed CLOSED (fun h' => ws_onclose (ws_onerror ws h')) h
  | SocketClose ws => deliver ws not_closed CLOSED ws_onclose h
  | TimerFire k =>
      match timers h !! k with
      | Some due =>
          if (due <=? now h)%Z then Some (connect (set_timers (delete k (timers h)) h))
          else None
      | None => None
      end
  | Elapse dt =>
      if (0 <=? dt)%Z then Some (set_now (now h + dt)%Z h) else None
  | Change _ | Submit | CloseHUD => Some h
  end.

(** One event on the rendered tree; [None] when the event cannot occur in
    this state.  The input is disabled together with the bar, so typing
    needs an enabled bar. *)
Definition step (e : Event) (a : AppState) : option AppState :=
  match e with
  | Change v =>
      if App.disabled a then None else Some (mkApp (hook a) (showHUD a) v)
  | Submit => Some (fst (App.submit a))
  | CloseHUD => Some (mkApp (hook a) false (value a))
  | _ =>
      match hook_step e (hook a) with
      | Some h' => Some (mkApp h' (showHUD a) (value a))
      | None => None
      end
  end.

(** A sequence of events, each possible where it occurs. *)
Fixpoint run (evs : list Event) (a : AppState) : option AppState :=
  match evs with
  | [] => Some a
  | e :: rest =>
      match step e a with
      | Some a' => run rest a'
      | None => None
      end
  end.

(** The tree before its effect has run. *)
Definition initial : AppState :=
  {| hook := useWebSocket; showHUD := false; value := "" |}.

Definition is_Mount (e : Event) : bool :=
  match e with Mount => true | _ => false end.

Definition is_Submit (e : Event) : bool :=
  match e with Submit => true | _ => false end.

Definition is_SocketOpen (e : Event) : bool :=
  match e with SocketOpen _ => true | _ => false end.

Definition ends_connection (e : Event) : bool :=
  match e with SocketClose _ | SocketError _ => true | _ => false end.

(** A life of the hook: the effect runs once, then events arrive; the
    cleanup may run, the effect does not run again. *)
Definition life (evs : list Event) : Prop :=
  forallb (fun e => negb (is_Mount e)) evs = true.

(** The states of a life of the hook. *)
Definition reachable (a : AppState) : Prop :=
  exists evs, life evs /\ run (Mount :: evs) initial = Some a.

(** ** What a run has received *)

(** The message a frame carries when it is a [state_update]: it parses and
    its [type] is exactly that string.  No other field is looked at. *)
Definition state_update_of (data : JS.Frame) : option JS.Value :=
  match JS.JSON_parse data with
  | Some msg =>
      match JS.get msg "type" with
      | Some ty => if JS.strict_eq_str ty "state_update" then Some msg else None
      | None => None
      end
  | None => None
  end.

(** The [state_update] messages among the frames of a run, in arrival order. *)
Fixpoint received_updates (evs : list Event) : list JS.Value :=
  match evs with
  | [] => []
  | SocketMessage _ data :: rest =>
      match state_update_of data with
      | Some msg => msg :: received_updates rest
      | None => received_updates rest
      end
  | _ :: rest => received_updates rest
  end.

(** The socket an event is delivered to. *)
Definition socket_of (e : Event) : option nat :=
  match e with
  | SocketOpen ws | SocketMessage ws _ | SocketError ws | SocketClose ws => Some ws
  | _ => None
  end.

(** ** Notions the properties are stated with *)

(** The result message of a frame and the [summary] it carries. *)
Definition result_summary_of (data : JS.Frame) : option JS.Value :=
  match JS.JSON_parse data with
  | Some msg =>
      match JS.get msg "type" with
      | Some ty =>
          if JS.strict_eq_str ty "state_update" then None
          else if JS.strict_eq_str ty "result" then JS.get msg "summary"
          else None
      | None => None
      end
  | None => None
  end.

(** The signal after one event: [open] sets it to [connected], [close] and
    [error] to [disconnected], and nothing else writes it. *)
Definition status_after (e : Event) (before : Status) : Status :=
  if is_SocketOpen e then connected
  else if ends_connection e then disconnected
  else before.

(** An event that writes the signal. *)
Definition writes_status (e : Event) : bool :=
  (is_SocketOpen e || ends_connection e)%bool.

(** The ready state of socket [j], if it exists. *)
Definition ready (h : Hook) (j : nat) : option ReadyState :=
  readyState <$> sockets h !! j.

Arguments ready : simpl never.

(** Socket [n] is the current one and is not closed, every earlier socket
    is closed, and no reconnection is pending. *)
Definition live (n : nat) (h : Hook) : Prop :=
  length (sockets h) = S n /\ wsRef h = Some n
  /\ (forall j, j < n -> ready h j = Some CLOSED)
  /\ (exists r, ready h n = Some r /\ r <> CLOSED)
  /\ timers h = [].

(** Every socket is closed and one reconnection is pending, due at [due]. *)
Definition waiting (n : nat) (due : Z) (h : Hook) : Prop :=
  length (sockets h) = S n /\ wsRef h = Some n
  /\ (forall j, j <= n -> ready h j = Some CLOSED)
  /\ timers h = [due] /\ status h = disconnected.

Definition chain (h : Hook) : Prop :=
  exists n, live n h \/ exists due, waiting n due h.

Definition is_TimerFire (e : Event) : bool :=
  match e with TimerFire _ => true | _ => false end.

(** How many events of a run satisfy [p]. *)
Fixpoint count_events (p : Event -> bool) (evs : list Event) : nat :=
  match evs with
  | [] => 0
  | e :: rest => (if p e then 1 else 0) + count_events p rest
  end.

(** Every frame the hook has put on the wire, socket by socket. *)
Definition sent_frames (h : Hook) : list JS.Frame :=
  concat (sent <$> sockets h).

(** An intent message whose payload is not empty and is its own trim. *)
Definition trimmed_intent (f : JS.Frame) : Prop :=
  exists p, f = JS.Json (JS.Obj [("type", JS.Str "intent"); ("payload", JS.Str p)])
            /\ JS.trim p = p /\ p <> "".

(** A history entry as [onmessage] admits them: reading its [type] yields
    the string [state_update]. *)
Definition state_update_entry (u : JS.Value) : Prop :=
  JS.get u "type" = Some (JS.Str "state_update").

(** The current socket is not still connecting whenever the signal says
    [connected]. *)
Definition connected_means_opened (h : Hook) : Prop :=
  status h = connected ->
  forall i, wsRef h = Some i -> ready h i <> Some CONNECTING.

(** ** A session, and the states used as examples *)

Definition sub_task (id : Z) (desc st : string) : JS.Value :=
  JS.Obj [("id", JS.Num id); ("desc", JS.Str desc); ("status", JS.Str st)].

Definition update_planning : JS.Value :=
  JS.Obj [("type", JS.Str "state_update"); ("node_status", JS.Str "parse_intent");
          ("thought", JS.Str "planning");
          ("sub_tasks", JS.Arr [sub_task 1 "search ebay" "pending"])].

Definition update_browsing : JS.Value :=
  JS.Obj [("type", JS.Str "state_update"); ("node_status", JS.Str "browser_action");
          ("sub_tasks", JS.Arr [sub_task 1 "search ebay" "running"])].

Definition result_found : JS.Value :=
  JS.Obj [("type", JS.Str "result"); ("summary", JS.Str "Found RTX 5070 at $599")].

Definition result_empty : JS.Value :=
  JS.Obj [("type", JS.Str "result"); ("summary", JS.Str "")].

(** The state a run from [initial] ends in ([initial] itself if the run is
    not possible). *)
Definition after (evs : list Event) : AppState :=
  match run evs initial with
  | Some a => a
  | None => initial
  end.

(** The frames of one task, a frame that is not JSON among them. *)
Definition task_frames : list Event :=
  [SocketMessage 0 (JS.Json update_planning); SocketMessage 0 (JS.NotJSON "oops");
   SocketMessage 0 (JS.Json update_browsing); SocketMessage 0 (JS.Json result_found)].

(** A whole session: connect, submit, receive. *)
Definition task_session : list Event :=
  [Mount; SocketOpen 0; Change "find cheapest gpu"; Submit] ++ task_frames.

(** Connected, with an intent just submitted. *)
Definition submitted : AppState :=
  after [Mount; SocketOpen 0; Change "find cheapest gpu"; Submit].

(** Offline with a history and a result on display, and a text typed. *)
Definition offline : AppState :=
  {| hook := {| status := disconnected; updates := [update_planning];
                summary := JS.Str "done"; wsRef := Some 0;
                sockets := [WebSocket.mk CLOSED []]; timers := [3000%Z];
                now := 0%Z |};
     showHUD := true; value := "again" |}.

(** A second task after the first, with one frame received for it. *)
Definition two_tasks : list Event :=
  task_session
  ++ [Change "next"; Submit; SocketMessage 0 (JS.Json update_planning)].

(** The first connection has failed and its reconnection is due. *)
Definition reconnect_due : AppState :=
  after [Mount; SocketClose 0; Elapse 3000].

(** Reconnected: the second socket is open, the first one closed. *)
Definition reconnected : AppState :=
  after [Mount; SocketClose 0; Elapse 3000; TimerFire 0; SocketOpen 1].

(** A reconnection attempt under way: the second socket is connecting. *)
Definition reconnecting : AppState :=
  after [Mount; SocketClose 0; Elapse 3000; TimerFire 0].

(** The effect has run twice and the first socket's close has timed a
    reconnection; it fires while the second socket is still connecting,
    and then the second socket opens. *)
Definition stale_open : list Event :=
  [Mount; Unmount; Mount; SocketClose 0; Elapse 3000; TimerFire 0; SocketOpen 1].

(** Each socket of [l] is still there in [l'], its sent frames extended at
    the end. *)
Definition wire_extends (l l' : list WebSocket.t) : Prop :=
  forall i s, l !! i = Some s ->
    exists s', l' !! i = Some s' /\ sent s `prefix_of` sent s'.

(** A connection that fails twice. *)
Definition failing_twice : list Event :=
  [Mount; SocketClose 0; Elapse 3000; TimerFire 0; SocketError 1].

(** Connected, with a text typed, blanks around it. *)
Definition typed : AppState :=
  after [Mount; SocketOpen 0; Change "  find cheapest gpu "].

(** Connected, with only blanks typed. *)
Definition blank_typed : AppState :=
  after [Mount; SocketOpen 0; Change "   "].

Ltac by_evaluation := vm_compute; first [reflexivity | discriminate].

(** * Properties *)

(** ** Trimming *)

Lemma trimStart_whitespace_only (s : string) :
  JS.whitespace_only s = true -> JS.trimStart s = "".
Proof.
  induction s as [|c rest IH]; simpl; [reflexivity|].
  intros [Hc Hrest]%andb_prop. rewrite Hc. auto.
Qed.

Lemma trim_whitespace_only (s : string) :
  JS.whitespace_only s = true -> JS.trim s = "".
Proof.
  intros H. unfold JS.trim. now rewrite (trimStart_whitespace_only s H).
Qed.

Lemma trimEnd_empty_whitespace_only (s : string) :
  JS.trimEnd s = "" -> JS.whitespace_only s = true.
Proof.
  induction s as [|c rest IH]; simpl; [reflexivity|].
  destruct (JS.is_space c); simpl; [|discriminate].
  destruct (String.eqb_spec (JS.trimEnd rest) "") as [E|E]; [auto|discriminate].
Qed.

Lemma trimStart_whitespace_only_inv (s : string) :
  JS.whitespace_only (JS.trimStart s) = true -> JS.whitespace_only s = true.
Proof.
  induction s as [|c rest IH]; simpl; [reflexivity|].
  destruct (JS.is_space c) eqn:Hc; simpl; [auto|].
  rewrite Hc. discriminate.
Qed.

(** [trim] yields the empty string exactly on the blank inputs. *)
Lemma trim_empty_iff (s : string) :
  JS.trim s = "" <-> JS.whitespace_only s = true.
Proof.
  split; [|apply trim_whitespace_only].
  intros H. apply trimStart_whitespace_only_inv.
  now apply trimEnd_empty_whitespace_only.
Qed.

(** ** Sending *)

Lemma current_send_session (data : JS.Frame) (h : Hook) :
  let h' := fst (current_send data h) in
  status h' = status h /\ updates h' = updates h /\ summary h' = summary h
  /\ wsRef h' = wsRef h /\ timers h' = timers h /\ now h' = now h.
Proof.
  unfold current_send.
  destruct (wsRef h) as [i|] eqn:Hr; [|simpl; tauto].
  destruct (sockets h !! i) as [s|]; [|simpl; tauto].
  destruct (WebSocket.send data s); simpl; tauto.
Qed.

Lemma send_readyState (data : JS.Frame) (s s' : WebSocket.t) :
  WebSocket.send data s = Some s' -> readyState s' = readyState s.
Proof.
  unfold WebSocket.send.
  destruct (readyState s) eqn:E; intros [= <-]; simpl; congruence.
Qed.

(** Sending changes no ready state and constructs no socket. *)
Lemma current_send_readyStates (data : JS.Frame) (h : Hook) :
  readyState <$> sockets (fst (current_send data h)) = readyState <$> sockets h.
Proof.
  unfold current_send.
  destruct (wsRef h) as [i|]; [|reflexivity].
  destruct (sockets h !! i) as [s|] eqn:Hi; [|reflexivity].
  destruct (WebSocket.send data s) as [s'|] eqn:Hs; [|reflexivity].
  simpl. rewrite list_fmap_insert, (send_readyState _ _ _ Hs).
  apply list_insert_id. now rewrite list_lookup_fmap, Hi.
Qed.

(** C1.  Submitting a new intent empties the history and clears the result
    before the intent message is handed to the socket: [sendIntent] is the
    send applied to a state [pre] whose history is empty and whose result is
    absent, on whose sockets nothing has been put yet, and the send itself
    touches neither the history nor the result. *)
Theorem sendIntent_resets_before_sending (intent : string) (h : Hook) :
  exists pre : Hook,
    updates pre = [] /\ summary pre = JS.Null
    /\ sockets pre = sockets h /\ wsRef pre = wsRef h
    /\ sendIntent intent h
        = current_send (JS.JSON_stringify (intent_message intent)) pre
    /\ updates (fst (sendIntent intent h)) = []
    /\ summary (fst (sendIntent intent h)) = JS.Null
    /\ (forall i s,
          wsRef h = Some i -> sockets h !! i = Some s -> readyState s = OPEN ->
          sockets (fst (sendIntent intent h)) !! i
          = Some (WebSocket.mk OPEN
                    (sent s ++ [JS.JSON_stringify (intent_message intent)]))).
Proof.
  exists (setSummary JS.Null (setUpdates (fun _ => []) h)).
  repeat split; try reflexivity; cycle 2.
  { intros i s Hr Hi Ho. unfold sendIntent, current_send. simpl.
    rewrite Hr, Hi. unfold WebSocket.send. rewrite Ho. simpl.
    apply list_lookup_insert_eq. now apply lookup_lt_Some in Hi. }
  - unfold sendIntent.
    now destruct (current_send_session (JS.JSON_stringify (intent_message intent))
                    (setSummary JS.Null (setUpdates (fun _ => []) h)))
      as (_ & -> & _).
  - unfold sendIntent.
    now destruct (current_send_session (JS.JSON_stringify (intent_message intent))
                    (setSummary JS.Null (setUpdates (fun _ => []) h)))
      as (_ & _ & -> & _).
Qed.

(** A disabled [IntentBar] passes nothing on. *)
Lemma submit_disabled (a : AppState) :
  App.disabled a = true -> App.submit a = (a, Normal).
Proof.
  intros Hd. unfold App.submit, IntentBar.handleSubmit. rewrite Hd.
  now rewrite orb_true_r.
Qed.

Lemma disabled_unless_connected (a : AppState) :
  status (hook a) <> connected -> App.disabled a = true.
Proof. unfold App.disabled. destruct (status (hook a)); simpl; congruence. Qed.

(** C2.  A submission made while the signal is not [connected] is dropped:
    [App] hands [IntentBar] the prop [disabled], and the whole state, history,
    result and every socket's sent frames included, is unchanged; nothing
    throws. *)
Theorem submit_ignored_unless_connected (a : AppState) :
  status (hook a) <> connected ->
  App.submit a = (a, Normal) /\ step Submit a = Some a.
Proof.
  intros Hst.
  pose proof (submit_disabled a (disabled_unless_connected a Hst)) as Hs.
  split; [exact Hs|]. simpl. now rewrite Hs.
Qed.

(** C9.  A submission whose text is empty or all white space is a no-op: the
    state is unchanged, no frame is sent, nothing throws. *)
Theorem submit_blank_is_noop (a : AppState) :
  JS.whitespace_only (value a) = true ->
  App.submit a = (a, Normal) /\ step Submit a = Some a.
Proof.
  intros Hb.
  assert (Hs : App.submit a = (a, Normal)).
  { unfold App.submit, IntentBar.handleSubmit.
    now rewrite (trim_whitespace_only _ Hb). }
  split; [exact Hs|]. simpl. now rewrite Hs.
Qed.

(** ** Inbound frames *)


Lemma ws_onmessage_state_update (data : JS.Frame) (msg : JS.Value) (h : Hook) :
  state_update_of data = Some msg ->
  ws_onmessage data h = setUpdates (fun prev => prev ++ [msg]) h.
Proof.
  unfold state_update_of, ws_onmessage.
  destruct (JS.JSON_parse data) as [m|]; [|discriminate].
  destruct (JS.get m "type") as [ty|]; [|discriminate].
  destruct (JS.strict_eq_str ty "state_update"); [|discriminate].
  now intros [= <-].
Qed.

Lemma ws_onmessage_other (data : JS.Frame) (h : Hook) :
  state_update_of data = None -> updates (ws_onmessage data h) = updates h.
Proof.
  unfold state_update_of, ws_onmessage.
  destruct (JS.JSON_parse data) as [m|]; [|reflexivity].
  destruct (JS.get m "type") as [ty|]; [|reflexivity].
  destruct (JS.strict_eq_str ty "state_update"); [discriminate|].
  intros _. destruct (JS.strict_eq_str ty "result"); [|reflexivity].
  now destruct (JS.get m "summary").
Qed.

Lemma deliver_updates (ws : nat) (guard : ReadyState -> bool)
    (after : ReadyState) (k : Hook -> Hook) (h h' : Hook) :
  (forall x, updates (k x) = updates x) ->
  deliver ws guard after k h = Some h' -> updates h' = updates h.
Proof.
  intros Hk. unfold deliver.
  destruct (sockets h !! ws) as [s|]; [|discriminate].
  destruct (guard (readyState s)); [|discriminate].
  intros [= <-]. now rewrite Hk.
Qed.

Lemma connect_updates (h : Hook) : updates (connect h) = updates h.
Proof. unfold connect. now destruct (current_is_open h). Qed.

(** One event other than a submission extends the history by the
    [state_update] it carries, if any. *)
Lemma step_updates (e : Event) (a a' : AppState) :
  is_Submit e = false -> step e a = Some a' ->
  updates (hook a') = updates (hook a) ++ received_updates [e].
Proof.
  intros He Hs. destruct e; try discriminate He; simpl in Hs |- *.
  - injection Hs as <-. simpl. now rewrite connect_updates, app_nil_r.
  - injection Hs as <-. simpl. unfold effect_cleanup.
    destruct (wsRef (hook a)); now rewrite app_nil_r.
  - destruct (deliver _ _ _ _ _) as [h'|] eqn:Hd; [|discriminate].
    injection Hs as <-. simpl. rewrite app_nil_r.
    apply deliver_updates in Hd; [exact Hd | reflexivity].
  - destruct (deliver _ _ _ _ _) as [h'|] eqn:Hd; [|discriminate].
    injection Hs as <-. simpl. unfold deliver in Hd.
    destruct (sockets (hook a) !! ws) as [s|]; [|discriminate].
    destruct (ReadyState_eqb OPEN (readyState s)); [|discriminate].
    injection Hd as <-.
    destruct (state_update_of data) as [msg|] eqn:Hm.
    + now rewrite (ws_onmessage_state_update _ _ _ Hm).
    + now rewrite (ws_onmessage_other _ _ Hm), app_nil_r.
  - destruct (deliver _ _ _ _ _) as [h'|] eqn:Hd; [|discriminate].
    injection Hs as <-. simpl. rewrite app_nil_r.
    apply deliver_updates in Hd; [exact Hd | reflexivity].
  - destruct (deliver _ _ _ _ _) as [h'|] eqn:Hd; [|discriminate].
    injection Hs as <-. simpl. rewrite app_nil_r.
    apply deliver_updates in Hd; [exact Hd | reflexivity].
  - destruct (timers (hook a) !! k) as [due|]; [|discriminate].
    destruct (due <=? now (hook a))%Z; [|discriminate].
    injection Hs as <-. simpl. now rewrite connect_updates, app_nil_r.
  - destruct (0 <=? dt)%Z; [|discriminate].
    injection Hs as <-. simpl. now rewrite app_nil_r.
  - destruct (App.disabled a); [discriminate|].
    injection Hs as <-. simpl. now rewrite app_nil_r.
  - injection Hs as <-. simpl. now rewrite app_nil_r.
Qed.

Lemma received_updates_cons (e : Event) (evs : list Event) :
  received_updates (e :: evs) = received_updates [e] ++ received_updates evs.
Proof.
  destruct e; try reflexivity. simpl.
  now destruct (state_update_of data).
Qed.

Lemma run_updates (evs : list Event) (a a' : AppState) :
  forallb (fun e => negb (is_Submit e)) evs = true ->
  run evs a = Some a' ->
  updates (hook a') = updates (hook a) ++ received_updates evs.
Proof.
  revert a. induction evs as [|e evs IH]; intros a Hns Hrun.
  - injection Hrun as <-. simpl. now rewrite app_nil_r.
  - cbn [run forallb] in Hns, Hrun. apply andb_prop in Hns as [He Hns].
    apply negb_true_iff in He.
    destruct (step e a) as [a1|] eqn:Hs; [|discriminate].
    rewrite (IH a1 Hns Hrun), (step_updates e a a1 He Hs).
    rewrite (received_updates_cons e evs). symmetry. apply app_assoc.
Qed.

(** C3.  Over any run with no submission in it, the history grows by exactly
    the [state_update] messages received, in arrival order, so that from an
    empty history it is that list and has its length; a frame that does not
    parse, and a frame whose [type] is neither [state_update] nor [result],
    leaves the hook's state as it was. *)
Theorem history_is_received_updates (evs : list Event) (a a' : AppState) :
  forallb (fun e => negb (is_Submit e)) evs = true ->
  run evs a = Some a' ->
  updates (hook a') = updates (hook a) ++ received_updates evs
  /\ (updates (hook a) = [] ->
      updates (hook a') = received_updates evs
      /\ length (updates (hook a')) = length (received_updates evs))
  /\ (forall data h, JS.JSON_parse data = None -> ws_onmessage data h = h)
  /\ (forall data msg ty h,
        JS.JSON_parse data = Some msg -> JS.get msg "type" = Some ty ->
        JS.strict_eq_str ty "state_update" = false ->
        JS.strict_eq_str ty "result" = false ->
        ws_onmessage data h = h).
Proof.
  intros Hns Hrun. pose proof (run_updates evs a a' Hns Hrun) as Hu.
  split; [exact Hu|]. split; [|split].
  - intros Hnil. rewrite Hnil in Hu. simpl in Hu. now rewrite Hu.
  - intros data h Hp. unfold ws_onmessage. now rewrite Hp.
  - intros data msg ty h Hp Hty H1 H2. unfold ws_onmessage.
    now rewrite Hp, Hty, H1, H2.
Qed.

(** ** Projections *)





Lemma ws_onmessage_result (data : JS.Frame) (s : JS.Value) (h : Hook) :
  result_summary_of data = Some s -> ws_onmessage data h = setSummary s h.
Proof.
  unfold result_summary_of, ws_onmessage.
  destruct (JS.JSON_parse data) as [m|]; [|discriminate].
  destruct (JS.get m "type") as [ty|]; [|discriminate].
  destruct (JS.strict_eq_str ty "state_update"); [discriminate|].
  destruct (JS.strict_eq_str ty "result"); [|discriminate].
  now intros ->.
Qed.

(** C8, as the code has it.  The panel is rendered exactly when the stored
    summary is truthy: after a result message whose summary is the string
    [s], exactly when [s] is not empty.  When rendered it shows the stored
    summary itself, and it is never rendered while the result is absent. *)
Theorem resultPanel_iff_nonempty_summary
    (data : JS.Frame) (s : string) (h : Hook) :
  result_summary_of data = Some (JS.Str s) ->
  let h' := ws_onmessage data h in
  summary h' = JS.Str s
  /\ (AgentHUD.resultPanel (summary h') = Some (JS.Str s) <-> s <> "")
  /\ (AgentHUD.resultPanel (summary h') = None <-> s = "")
  /\ (forall v shown, AgentHUD.resultPanel v = Some shown ->
                      shown = v /\ v <> JS.Null)
  /\ AgentHUD.resultPanel JS.Null = None.
Proof.
  intros Hr h'. unfold h'. rewrite (ws_onmessage_result _ _ _ Hr). simpl.
  assert (Hshown : forall v shown, AgentHUD.resultPanel v = Some shown ->
                                   shown = v /\ v <> JS.Null).
  { intros v shown. unfold AgentHUD.resultPanel.
    destruct (JS.truthy v) eqn:Ht; [|discriminate].
    intros [= <-]. split; [reflexivity|]. intros ->. discriminate Ht. }
  split; [reflexivity|].
  unfold AgentHUD.resultPanel at 1 2. simpl.
  destruct (String.eqb_spec s "") as [->|Hne]; simpl.
  - repeat split; try congruence; try (eapply Hshown; eassumption).
  - repeat split; try congruence; try (eapply Hshown; eassumption).
Qed.

(** C8 as stated fails: a result message whose summary is the empty string
    makes the result present, and no panel is rendered. *)
Lemma resultPanel_absent_for_empty_summary :
  let h := ws_onmessage (JS.Json result_empty) useWebSocket in
  summary h = JS.Str "" /\ summary h <> JS.Null
  /\ AgentHUD.resultPanel (summary h) = None.
Proof. simpl. repeat split. discriminate. Qed.

(** ** The connectivity signal *)

Lemma deliver_Some (ws : nat) (guard : ReadyState -> bool)
    (after : ReadyState) (k : Hook -> Hook) (h h' : Hook) :
  deliver ws guard after k h = Some h' ->
  exists s, sockets h !! ws = Some s /\ guard (readyState s) = true
    /\ h' = k (set_sockets (<[ws := set_readyState after s]> (sockets h)) h).
Proof.
  unfold deliver. destruct (sockets h !! ws) as [s|]; [|discriminate].
  destruct (guard (readyState s)) eqn:Hg; [|discriminate].
  intros [= <-]. eauto.
Qed.

Lemma connect_status (h : Hook) : status (connect h) = status h.
Proof. unfold connect. now destruct (current_is_open h). Qed.

(** What a submission does to the hook: nothing, or [sendIntent] on the
    trimmed text, and the latter only under a [connected] signal. *)
Lemma submit_hook (a : AppState) :
  hook (fst (App.submit a)) = hook a
  \/ (status (hook a) = connected
      /\ hook (fst (App.submit a))
         = fst (sendIntent (JS.trim (value a)) (hook a))).
Proof.
  unfold App.submit, IntentBar.handleSubmit.
  destruct (negb _ || App.disabled a)%bool eqn:Hg; [now left|].
  apply orb_false_elim in Hg as [_ Hd]. right. split.
  - unfold App.disabled in Hd. now destruct (status (hook a)).
  - unfold App.handleSubmit.
    now destruct (sendIntent (JS.trim (value a)) (hook a)) as [h' []].
Qed.

Lemma sendIntent_conn (intent : string) (h : Hook) :
  let h' := fst (sendIntent intent h) in
  status h' = status h /\ wsRef h' = wsRef h /\ timers h' = timers h
  /\ now h' = now h
  /\ readyState <$> sockets h' = readyState <$> sockets h.
Proof.
  unfold sendIntent. simpl.
  set (pre := setSummary JS.Null (setUpdates (fun _ => []) h)).
  destruct (current_send_session (JS.JSON_stringify (intent_message intent)) pre)
    as (H1 & _ & _ & H2 & H3 & H4).
  repeat split; try assumption.
  apply (current_send_readyStates _ pre).
Qed.

Lemma step_status (e : Event) (a a' : AppState) :
  step e a = Some a' ->
  status (hook a') = status_after e (status (hook a)).
Proof.
  intros Hs. destruct e; simpl in Hs; unfold status_after; simpl.
  - injection Hs as <-. apply connect_status.
  - injection Hs as <-. simpl. unfold effect_cleanup.
    now destruct (wsRef (hook a)).
  - destruct (deliver _ _ _ _ _) as [h'|] eqn:Hd; [|discriminate].
    injection Hs as <-. now apply deliver_Some in Hd as (s & _ & _ & ->).
  - destruct (deliver _ _ _ _ _) as [h'|] eqn:Hd; [|discriminate].
    injection Hs as <-. apply deliver_Some in Hd as (s & _ & _ & ->). simpl.
    unfold ws_onmessage.
    destruct (JS.JSON_parse data) as [m|]; [|reflexivity].
    destruct (JS.get m "type") as [ty|]; [|reflexivity].
    destruct (JS.strict_eq_str ty "state_update"); [reflexivity|].
    destruct (JS.strict_eq_str ty "result"); [|reflexivity].
    now destruct (JS.get m "summary").
  - destruct (deliver _ _ _ _ _) as [h'|] eqn:Hd; [|discriminate].
    injection Hs as <-. now apply deliver_Some in Hd as (s & _ & _ & ->).
  - destruct (deliver _ _ _ _ _) as [h'|] eqn:Hd; [|discriminate].
    injection Hs as <-. now apply deliver_Some in Hd as (s & _ & _ & ->).
  - destruct (timers (hook a) !! k) as [due|]; [|discriminate].
    destruct (due <=? now (hook a))%Z; [|discriminate].
    injection Hs as <-. simpl. now rewrite connect_status.
  - destruct (0 <=? dt)%Z; [|discriminate]. now injection Hs as <-.
  - destruct (App.disabled a); [discriminate|]. now injection Hs as <-.
  - injection Hs as <-.
    destruct (submit_hook a) as [-> | [_ ->]]; [reflexivity|].
    now destruct (sendIntent_conn (JS.trim (value a)) (hook a)) as (-> & _).
  - now injection Hs as <-.
Qed.

(** The signal along a run: it is unchanged while no open, close or error
    event is delivered, differs from [connecting] once one has been, never
    returns to [connecting], and stays [disconnected] while no open event is
    delivered. *)
Lemma status_along_run (evs : list Event) (a a' : AppState) :
  run evs a = Some a' ->
  (forallb (fun e => negb (writes_status e)) evs = true ->
     status (hook a') = status (hook a))
  /\ (forallb (fun e => negb (writes_status e)) evs = false ->
     status (hook a') <> connecting)
  /\ (status (hook a) <> connecting -> status (hook a') <> connecting)
  /\ (status (hook a) = disconnected ->
      forallb (fun e => negb (is_SocketOpen e)) evs = true ->
      status (hook a') = disconnected).
Proof.
  revert a a'. induction evs as [|e evs IH]; intros a a' Hrun.
  - injection Hrun as <-. simpl. repeat split; auto; discriminate.
  - cbn [run] in Hrun. destruct (step e a) as [a1|] eqn:Hs; [|discriminate].
    destruct (IH a1 a' Hrun) as (IH1 & IH2 & IH3 & IH4).
    pose proof (step_status e a a1 Hs) as Hst.
    unfold status_after in Hst. cbn [forallb]. unfold writes_status in *.
    destruct (is_SocketOpen e) eqn:Ho; simpl.
    + repeat split; try discriminate.
      * intros _. destruct (forallb _ evs) eqn:Hf.
        -- rewrite (IH1 eq_refl), Hst. discriminate.
        -- now apply IH2.
      * intros _. apply IH3. rewrite Hst. discriminate.
    + destruct (ends_connection e) eqn:Hc; simpl.
      * repeat split; try discriminate.
        -- intros _. destruct (forallb _ evs) eqn:Hf.
           ++ rewrite (IH1 eq_refl), Hst. discriminate.
           ++ now apply IH2.
        -- intros _. apply IH3. rewrite Hst. discriminate.
        -- intros _ Hno. now apply IH4.
      * repeat split.
        -- intros Hf. now rewrite (IH1 Hf).
        -- exact IH2.
        -- intros Hne. apply IH3. now rewrite Hst.
        -- intros Hd Hno. apply IH4; [now rewrite Hst|exact Hno].
Qed.

(** ** One connection at a time *)

Lemma ready_ge (h : Hook) (j : nat) :
  length (sockets h) <= j -> ready h j = None.
Proof. intros H. unfold ready. now rewrite (lookup_ge_None_2 _ _ H). Qed.

Lemma ready_Some (h : Hook) (j : nat) (s : WebSocket.t) :
  sockets h !! j = Some s -> ready h j = Some (readyState s).
Proof. intros H. unfold ready. now rewrite H. Qed.

Lemma ready_fmap_eq (h h' : Hook) :
  readyState <$> sockets h' = readyState <$> sockets h ->
  length (sockets h') = length (sockets h) /\ forall j, ready h' j = ready h j.
Proof.
  intros E. split.
  - now rewrite <- (length_fmap readyState (sockets h')), E, length_fmap.
  - intros j. unfold ready. now rewrite <- !list_lookup_fmap, E.
Qed.

(** The ready states after the browser has moved socket [ws] to [after]. *)
Lemma ready_insert (h : Hook) (ws j : nat) (s : WebSocket.t) (after : ReadyState) :
  sockets h !! ws = Some s ->
  ready (set_sockets (<[ws := set_readyState after s]> (sockets h)) h) j
  = if decide (ws = j) then Some after else ready h j.
Proof.
  intros Hs. unfold ready. simpl. destruct (decide (ws = j)) as [<-|Hne].
  - rewrite list_lookup_insert_eq; [reflexivity|]. now apply lookup_lt_Some in Hs.
  - now rewrite list_lookup_insert_ne.
Qed.

Lemma close_CLOSED_iff (s : WebSocket.t) :
  readyState (WebSocket.close s) = CLOSED <-> readyState s = CLOSED.
Proof. unfold WebSocket.close. destruct (readyState s) eqn:E; simpl; now rewrite ?E. Qed.

Lemma ready_alter_close (h : Hook) (i j : nat) :
  (ready (set_sockets (alter WebSocket.close i (sockets h)) h) j = Some CLOSED
   <-> ready h j = Some CLOSED)
  /\ (ready (set_sockets (alter WebSocket.close i (sockets h)) h) j = None
      <-> ready h j = None).
Proof.
  unfold ready. simpl. destruct (decide (i = j)) as [<-|Hne].
  - rewrite list_lookup_alter_eq. destruct (sockets h !! i) as [s|]; simpl.
    + split; [|split; discriminate].
      split; intros [= E]; f_equal; now apply close_CLOSED_iff.
    + tauto.
  - rewrite list_lookup_alter_ne by assumption. tauto.
Qed.

Lemma alter_close_closed (l : list WebSocket.t) (i : nat) (s : WebSocket.t) :
  l !! i = Some s -> readyState s = CLOSED -> alter WebSocket.close i l = l.
Proof.
  intros Hi Hc. apply list_eq. intros j. destruct (decide (i = j)) as [<-|Hne].
  - rewrite list_lookup_alter_eq, Hi. simpl. unfold WebSocket.close. now rewrite Hc.
  - now rewrite list_lookup_alter_ne.
Qed.

(** A transport error runs the very path of a close: the socket is already
    closed when [onerror] calls [ws.close()], which then does nothing, and
    [onclose] follows. *)
Lemma error_is_close (ws : nat) (h : Hook) :
  hook_step (SocketError ws) h = hook_step (SocketClose ws) h.
Proof.
  simpl. unfold deliver. destruct (sockets h !! ws) as [s|] eqn:Hs; [|reflexivity].
  destruct (not_closed (readyState s)); [|reflexivity].
  do 2 f_equal. unfold ws_onerror. simpl.
  rewrite (alter_close_closed _ ws (set_readyState CLOSED s)); [reflexivity| |reflexivity].
  apply list_lookup_insert_eq. now apply lookup_lt_Some in Hs.
Qed.

Lemma chain_mount : live 0 (effect_mount useWebSocket).
Proof.
  unfold live, ready. simpl. repeat split; try reflexivity.
  - intros j Hj. lia.
  - exists CONNECTING. split; [reflexivity|discriminate].
Qed.

Lemma live_ext (n : nat) (h h' : Hook) :
  live n h ->
  readyState <$> sockets h' = readyState <$> sockets h ->
  wsRef h' = wsRef h -> timers h' = timers h -> live n h'.
Proof.
  intros (Hlen & Hr & Hold & Hcur & Ht) Hs Hr' Ht'.
  destruct (ready_fmap_eq h h' Hs) as [Hl Hrd].
  unfold live. rewrite Hl, Hr', Ht'. repeat split; try assumption.
  - intros j Hj. rewrite Hrd. now apply Hold.
  - now rewrite Hrd.
Qed.

Lemma waiting_ext (n : nat) (due : Z) (h h' : Hook) :
  waiting n due h ->
  readyState <$> sockets h' = readyState <$> sockets h ->
  wsRef h' = wsRef h -> timers h' = timers h -> status h' = status h ->
  waiting n due h'.
Proof.
  intros (Hlen & Hr & Hall & Ht & Hst) Hs Hr' Ht' Hst'.
  destruct (ready_fmap_eq h h' Hs) as [Hl Hrd].
  unfold waiting. rewrite Hl, Hr', Ht', Hst'. repeat split; try assumption.
  intros j Hj. rewrite Hrd. now apply Hall.
Qed.

(** In a live state only the current socket can still receive an event. *)
Lemma live_not_closed_current (n ws : nat) (h : Hook) (s : WebSocket.t) :
  live n h -> sockets h !! ws = Some s -> readyState s <> CLOSED -> ws = n.
Proof.
  intros (Hlen & _ & Hold & _) Hs Hne.
  pose proof (lookup_lt_Some _ _ _ Hs) as Hlt. rewrite Hlen in Hlt.
  destruct (decide (ws = n)) as [|Hn]; [assumption|].
  assert (Hj : ws < n) by lia.
  specialize (Hold ws Hj). rewrite (ready_Some _ _ _ Hs) in Hold.
  now injection Hold.
Qed.

Lemma waiting_all_closed (n ws : nat) (due : Z) (h : Hook) (s : WebSocket.t) :
  waiting n due h -> sockets h !! ws = Some s -> readyState s = CLOSED.
Proof.
  intros (Hlen & _ & Hall & _) Hs.
  pose proof (lookup_lt_Some _ _ _ Hs) as Hlt. rewrite Hlen in Hlt.
  assert (Hj : ws <= n) by lia.
  specialize (Hall ws Hj). rewrite (ready_Some _ _ _ Hs) in Hall.
  now injection Hall.
Qed.

Lemma live_insert (n : nat) (h : Hook) (s : WebSocket.t) (r : ReadyState) :
  live n h -> sockets h !! n = Some s -> r <> CLOSED ->
  live n (set_sockets (<[n := set_readyState r s]> (sockets h)) h).
Proof.
  intros (Hlen & Hr & Hold & _ & Ht) Hs Hne. unfold live.
  repeat split; simpl; try assumption.
  - now rewrite length_insert.
  - intros j Hj. rewrite (ready_insert _ _ _ _ _ Hs).
    destruct (decide (n = j)); [lia|]. now apply Hold.
  - exists r. rewrite (ready_insert _ _ _ _ _ Hs).
    now destruct (decide (n = n)).
Qed.

Lemma live_closes (n : nat) (h : Hook) (s : WebSocket.t) :
  live n h -> sockets h !! n = Some s ->
  waiting n (now h + RECONNECT_INTERVAL_MS)
    (ws_onclose (set_sockets (<[n := set_readyState CLOSED s]> (sockets h)) h)).
Proof.
  intros (Hlen & Hr & Hold & _ & Ht) Hs. unfold waiting.
  repeat split; simpl; try assumption.
  - now rewrite length_insert.
  - intros j Hj.
    change (ready (set_sockets (<[n := set_readyState CLOSED s]> (sockets h)) h) j
            = Some CLOSED).
    rewrite (ready_insert _ _ _ _ _ Hs).
    destruct (decide (n = j)); [reflexivity|]. apply Hold. lia.
  - now rewrite Ht.
Qed.

Lemma live_cleanup (n : nat) (h : Hook) : live n h -> live n (effect_cleanup h).
Proof.
  intros Hl. pose proof Hl as (Hlen & Hr & Hold & (r & Hn & Hne) & Ht).
  unfold effect_cleanup. rewrite Hr. unfold live. simpl.
  repeat split; try assumption.
  - now rewrite length_alter.
  - intros j Hj. apply (ready_alter_close h n j). now apply Hold.
  - destruct (ready (set_sockets (alter WebSocket.close n (sockets h)) h) n)
      as [r'|] eqn:E.
    + exists r'. split; [reflexivity|]. intros ->.
      apply (ready_alter_close h n n) in E. congruence.
    + apply (ready_alter_close h n n) in E. congruence.
Qed.

Lemma waiting_cleanup (n : nat) (due : Z) (h : Hook) :
  waiting n due h -> waiting n due (effect_cleanup h).
Proof.
  intros Hw. pose proof Hw as (Hlen & Hr & Hall & Ht & Hst).
  unfold effect_cleanup. rewrite Hr.
  destruct (lookup_lt_is_Some_2 (sockets h) n) as [s Hs]; [lia|].
  rewrite (alter_close_closed _ _ s Hs (waiting_all_closed _ _ _ _ _ Hw Hs)).
  now apply (waiting_ext n due h).
Qed.

Lemma waiting_reconnects (n : nat) (due : Z) (h : Hook) :
  waiting n due h ->
  live (S n) (connect (set_timers (delete 0 (timers h)) h))
  /\ sockets (connect (set_timers (delete 0 (timers h)) h))
     = sockets h ++ [WebSocket.new].
Proof.
  intros Hw. pose proof Hw as (Hlen & Hr & Hall & Ht & Hst).
  destruct (lookup_lt_is_Some_2 (sockets h) n) as [s Hs]; [lia|].
  pose proof (waiting_all_closed _ _ _ _ _ Hw Hs) as Hc.
  unfold connect, current_is_open. simpl. rewrite Hr, Hs, Hc. simpl.
  split; [|reflexivity]. unfold live, ready. simpl.
  repeat split.
  - rewrite length_app, Hlen. simpl. lia.
  - now rewrite Hlen.
  - intros j Hj. rewrite lookup_app_l by lia. apply Hall. lia.
  - exists CONNECTING. split; [|discriminate].
    rewrite lookup_app_r by lia. rewrite Hlen, Nat.sub_diag. reflexivity.
  - now rewrite Ht.
Qed.

(** One event in a live state: the state stays live on the same socket, or
    the event is the close (or error) of the current socket and exactly one
    reconnection is now pending, due [RECONNECT_INTERVAL_MS] from now. *)
Lemma live_hook_step (n : nat) (e : Event) (h h' : Hook) :
  live n h -> is_Mount e = false -> hook_step e h = Some h' ->
  (forall ws, socket_of e = Some ws -> ws = n)
  /\ ((ends_connection e = false /\ live n h'
       /\ length (sockets h') = length (sockets h))
      \/ (ends_connection e = true
          /\ waiting n (now h + RECONNECT_INTERVAL_MS) h'
          /\ now h' = now h)).
Proof.
  intros Hl Hm Hs. pose proof Hl as (Hlen & Hr & Hold & Hcur & Ht).
  destruct e; try discriminate Hm.
  - (* Unmount *)
    injection Hs as <-. split; [discriminate|]. left.
    split; [reflexivity|]. split; [now apply live_cleanup|].
    unfold effect_cleanup. rewrite Hr. simpl. apply length_alter.
  - (* SocketOpen *)
    simpl in Hs. apply deliver_Some in Hs as (s & Hws & Hg & ->).
    assert (ws = n) as ->.
    { apply (live_not_closed_current n ws h s Hl Hws).
      intros E. rewrite E in Hg. discriminate. }
    split; [now intros ? [= <-]|]. left. split; [reflexivity|]. split.
    + apply (live_ext n (set_sockets (<[n := set_readyState OPEN s]> (sockets h)) h));
        [apply live_insert; [assumption..|discriminate]|reflexivity..].
    + simpl. apply length_insert.
  - (* SocketMessage *)
    simpl in Hs. apply deliver_Some in Hs as (s & Hws & Hg & ->).
    assert (ws = n) as ->.
    { apply (live_not_closed_current n ws h s Hl Hws).
      intros E. rewrite E in Hg. discriminate. }
    split; [now intros ? [= <-]|]. left. split; [reflexivity|].
    set (h1 := set_sockets (<[n := set_readyState OPEN s]> (sockets h)) h).
    assert (Hm1 : sockets (ws_onmessage data h1) = sockets h1
                  /\ wsRef (ws_onmessage data h1) = wsRef h1
                  /\ timers (ws_onmessage data h1) = timers h1).
    { unfold ws_onmessage.
      destruct (JS.JSON_parse data) as [m|]; [|auto].
      destruct (JS.get m "type") as [ty|]; [|auto].
      destruct (JS.strict_eq_str ty "state_update"); [auto|].
      destruct (JS.strict_eq_str ty "result"); [|auto].
      destruct (JS.get m "summary"); auto. }
    destruct Hm1 as (E1 & E2 & E3). split.
    + apply (live_ext n h1); [apply live_insert; [assumption..|discriminate]| |assumption..].
      now rewrite E1.
    + rewrite E1. simpl. apply length_insert.
  - (* SocketError *)
    rewrite error_is_close in Hs.
    simpl in Hs. apply deliver_Some in Hs as (s & Hws & Hg & ->).
    assert (ws = n) as ->.
    { apply (live_not_closed_current n ws h s Hl Hws).
      intros E. rewrite E in Hg. discriminate. }
    split; [now intros ? [= <-]|]. right. split; [reflexivity|].
    split; [now apply live_closes|reflexivity].
  - (* SocketClose *)
    simpl in Hs. apply deliver_Some in Hs as (s & Hws & Hg & ->).
    assert (ws = n) as ->.
    { apply (live_not_closed_current n ws h s Hl Hws).
      intros E. rewrite E in Hg. discriminate. }
    split; [now intros ? [= <-]|]. right. split; [reflexivity|].
    split; [now apply live_closes|reflexivity].
  - (* TimerFire *)
    simpl in Hs. rewrite Ht in Hs. discriminate.
  - (* Elapse *)
    simpl in Hs. destruct (0 <=? dt)%Z; [|discriminate]. injection Hs as <-.
    split; [discriminate|]. left. split; [reflexivity|].
    split; [now apply (live_ext n h)|reflexivity].
  - injection Hs as <-. split; [discriminate|]. left. now repeat split.
  - injection Hs as <-. split; [discriminate|]. left. now repeat split.
  - injection Hs as <-. split; [discriminate|]. left. now repeat split.
Qed.

(** One event while a reconnection is pending: nothing about the connection
    changes, or the event is that timer firing, not before it is due, and
    it constructs exactly one socket. *)
Lemma waiting_hook_step (n : nat) (due : Z) (e : Event) (h h' : Hook) :
  waiting n due h -> is_Mount e = false -> hook_step e h = Some h' ->
  socket_of e = None
  /\ ((waiting n due h' /\ sockets h' = sockets h /\ (now h <= now h')%Z)
      \/ (e = TimerFire 0 /\ (due <= now h)%Z /\ live (S n) h'
          /\ sockets h' = sockets h ++ [WebSocket.new] /\ now h' = now h)).
Proof.
  intros Hw Hm Hs. pose proof Hw as (Hlen & Hr & Hall & Ht & Hst).
  assert (Hdead : forall ws guard after k,
            guard CLOSED = false -> deliver ws guard after k h <> Some h').
  { intros ws guard after k Hg Hd.
    apply deliver_Some in Hd as (s & Hws & Hg' & _).
    rewrite (waiting_all_closed _ _ _ _ _ Hw Hws) in Hg'. congruence. }
  destruct e; try discriminate Hm; simpl in Hs;
    try (exfalso; revert Hs; now apply Hdead).
  - (* Unmount *)
    injection Hs as <-. split; [reflexivity|]. left.
    split; [now apply waiting_cleanup|].
    unfold effect_cleanup. rewrite Hr. simpl. split; [|lia].
    destruct (lookup_lt_is_Some_2 (sockets h) n) as [s Hws]; [lia|].
    apply (alter_close_closed _ _ s Hws (waiting_all_closed _ _ _ _ _ Hw Hws)).
  - (* TimerFire *)
    split; [reflexivity|]. right. rewrite Ht in Hs.
    destruct k as [|k]; [|discriminate]. simpl in Hs.
    destruct (due <=? now h)%Z eqn:Hdue; [|discriminate].
    injection Hs as <-. apply Z.leb_le in Hdue.
    destruct (waiting_reconnects n due h Hw) as [Hlive Hsock].
    rewrite Ht in Hlive, Hsock. simpl in Hlive, Hsock.
    split; [reflexivity|]. do 3 (split; [assumption|]).
    unfold connect. now destruct (current_is_open _).
  - (* Elapse *)
    destruct (0 <=? dt)%Z eqn:Hdt; [|discriminate]. injection Hs as <-.
    apply Z.leb_le in Hdt. split; [reflexivity|]. left.
    split; [now apply (waiting_ext n due h)|]. split; [reflexivity|simpl; lia].
  - injection Hs as <-. split; [reflexivity|]. left. split; [assumption|]. split; [reflexivity|lia].
  - injection Hs as <-. split; [reflexivity|]. left. split; [assumption|]. split; [reflexivity|lia].
  - injection Hs as <-. split; [reflexivity|]. left. split; [assumption|]. split; [reflexivity|lia].
Qed.

Lemma step_hook_step (e : Event) (a a' : AppState) :
  is_Submit e = false -> step e a = Some a' ->
  hook_step e (hook a) = Some (hook a').
Proof.
  intros He Hs. destruct e; try discriminate He; simpl in Hs |- *;
    try (destruct (hook_step _ _) eqn:E; simpl in E; rewrite E in Hs);
    try (destruct (deliver _ _ _ _ _); [|discriminate]);
    try now injection Hs as <-.
  - destruct (timers (hook a) !! k) as [due|]; [|discriminate].
    destruct (due <=? now (hook a))%Z; [|discriminate]. now injection Hs as <-.
  - destruct (0 <=? dt)%Z; [|discriminate]. now injection Hs as <-.
  - destruct (App.disabled a); [discriminate|]. now injection Hs as <-.
Qed.

Lemma life_cons (e : Event) (evs : list Event) :
  life (e :: evs) <-> is_Mount e = false /\ life evs.
Proof.
  unfold life. cbn [forallb]. rewrite andb_true_iff, negb_true_iff. tauto.
Qed.

Lemma live_step (n : nat) (e : Event) (a a' : AppState) :
  live n (hook a) -> is_Mount e = false -> step e a = Some a' ->
  (forall ws, socket_of e = Some ws -> ws = n)
  /\ ((ends_connection e = false /\ live n (hook a')
       /\ length (sockets (hook a')) = length (sockets (hook a)))
      \/ (ends_connection e = true
          /\ waiting n (now (hook a) + RECONNECT_INTERVAL_MS) (hook a')
          /\ now (hook a') = now (hook a))).
Proof.
  intros Hl Hm Hs. destruct (is_Submit e) eqn:He.
  - destruct e; try discriminate He. simpl in Hs. injection Hs as <-.
    split; [discriminate|]. left. split; [reflexivity|].
    destruct (submit_hook a) as [-> | [_ ->]]; [now split|].
    destruct (sendIntent_conn (JS.trim (value a)) (hook a))
      as (_ & E2 & E3 & _ & E5).
    split; [now apply (live_ext n (hook a))|].
    now apply (ready_fmap_eq (hook a)).
  - apply (live_hook_step n e (hook a) (hook a') Hl Hm).
    now apply step_hook_step.
Qed.

Lemma waiting_step (n : nat) (due : Z) (e : Event) (a a' : AppState) :
  waiting n due (hook a) -> is_Mount e = false -> step e a = Some a' ->
  socket_of e = None
  /\ ((waiting n due (hook a') /\ sockets (hook a') = sockets (hook a)
       /\ (now (hook a) <= now (hook a'))%Z)
      \/ (e = TimerFire 0 /\ (due <= now (hook a))%Z /\ live (S n) (hook a')
          /\ sockets (hook a') = sockets (hook a) ++ [WebSocket.new]
          /\ now (hook a') = now (hook a))).
Proof.
  intros Hw Hm Hs. destruct (is_Submit e) eqn:He.
  - destruct e; try discriminate He.
    assert (Hst : status (hook a) <> connected).
    { destruct Hw as (_ & _ & _ & _ & ->). discriminate. }
    simpl in Hs.
    rewrite (submit_disabled a (disabled_unless_connected a Hst)) in Hs.
    injection Hs as <-.
    split; [reflexivity|]. left. split; [assumption|]. split; [reflexivity|lia].
  - apply (waiting_hook_step n due e (hook a) (hook a') Hw Hm).
    now apply step_hook_step.
Qed.

(** The clock never runs backwards. *)
Lemma step_now (e : Event) (a a' : AppState) :
  step e a = Some a' -> (now (hook a) <= now (hook a'))%Z.
Proof.
  intros Hs. destruct (is_Submit e) eqn:He.
  - destruct e; try discriminate He. simpl in Hs. injection Hs as <-.
    destruct (submit_hook a) as [-> | [_ ->]]; [lia|].
    destruct (sendIntent_conn (JS.trim (value a)) (hook a)) as (_ & _ & _ & -> & _).
    lia.
  - apply step_hook_step in Hs; [|assumption].
    assert (Hc : forall h, now (connect h) = now h).
    { intros h. unfold connect. now destruct (current_is_open h). }
    assert (Hm : forall data h, now (ws_onmessage data h) = now h).
    { intros data h. unfold ws_onmessage.
      destruct (JS.JSON_parse data) as [m|]; [|reflexivity].
      destruct (JS.get m "type") as [ty|]; [|reflexivity].
      destruct (JS.strict_eq_str ty "state_update"); [reflexivity|].
      destruct (JS.strict_eq_str ty "result"); [|reflexivity].
      now destruct (JS.get m "summary"). }
    destruct e; try discriminate He; simpl in Hs.
    + injection Hs as <-. unfold effect_mount. rewrite Hc. lia.
    + injection Hs as <-. unfold effect_cleanup.
      destruct (wsRef _); simpl; lia.
    + apply deliver_Some in Hs as (s & _ & _ & ->). simpl. lia.
    + apply deliver_Some in Hs as (s & _ & _ & ->). rewrite Hm. simpl. lia.
    + apply deliver_Some in Hs as (s & _ & _ & ->). simpl. lia.
    + apply deliver_Some in Hs as (s & _ & _ & ->). simpl. lia.
    + destruct (timers (hook a) !! k) as [due|]; [|discriminate].
      destruct (due <=? now (hook a))%Z; [|discriminate].
      injection Hs as <-. rewrite Hc. simpl. lia.
    + destruct (0 <=? dt)%Z eqn:Hdt; [|discriminate].
      injection Hs as <-. apply Z.leb_le in Hdt. simpl. lia.
    + injection Hs as <-. lia.
    + injection Hs as <-. lia.
Qed.

Lemma run_now (evs : list Event) (a a' : AppState) :
  run evs a = Some a' -> (now (hook a) <= now (hook a'))%Z.
Proof.
  revert a. induction evs as [|e evs IH]; intros a Hrun.
  - injection Hrun as <-. lia.
  - cbn [run] in Hrun. destruct (step e a) as [a1|] eqn:Hs; [|discriminate].
    pose proof (step_now _ _ _ Hs). pose proof (IH _ Hrun). lia.
Qed.

Lemma run_app (evs1 evs2 : list Event) (a : AppState) :
  run (evs1 ++ evs2) a
  = match run evs1 a with Some a1 => run evs2 a1 | None => None end.
Proof.
  revert a. induction evs1 as [|e evs1 IH]; intros a; [reflexivity|].
  cbn [run app]. destruct (step e a); [apply IH|reflexivity].
Qed.

Lemma chain_step (e : Event) (a a' : AppState) :
  chain (hook a) -> is_Mount e = false -> step e a = Some a' -> chain (hook a').
Proof.
  intros [n [Hl | [due Hw]]] Hm Hs.
  - destruct (live_step n e a a' Hl Hm Hs) as [_ [(_ & Hl' & _) | (_ & Hw' & _)]].
    + exists n. now left.
    + exists n. right. eauto.
  - destruct (waiting_step n due e a a' Hw Hm Hs)
      as [_ [(Hw' & _) | (_ & _ & Hl' & _)]].
    + exists n. right. eauto.
    + exists (S n). now left.
Qed.

Lemma chain_run (evs : list Event) (a a' : AppState) :
  chain (hook a) -> life evs -> run evs a = Some a' -> chain (hook a').
Proof.
  revert a. induction evs as [|e evs IH]; intros a Hc Hlife Hrun.
  - now injection Hrun as <-.
  - apply life_cons in Hlife as [Hm Hlife]. cbn [run] in Hrun.
    destruct (step e a) as [a1|] eqn:Hs; [|discriminate].
    apply (IH a1); [|assumption..]. now apply (chain_step e a).
Qed.

(** In every life of the hook there is one connection at a time. *)
Lemma reachable_chain (a : AppState) : reachable a -> chain (hook a).
Proof.
  intros (evs & Hlife & Hrun). cbn [run] in Hrun.
  change (step Mount initial)
    with (Some (mkApp (effect_mount useWebSocket) false "")) in Hrun.
  apply (chain_run evs (mkApp (effect_mount useWebSocket) false "") a);
    [|assumption..].
  exists 0. left. apply chain_mount.
Qed.

Lemma reachable_run (evs : list Event) (a a' : AppState) :
  reachable a -> life evs -> run evs a = Some a' -> reachable a'.
Proof.
  intros (evs0 & Hlife0 & Hrun0) Hlife Hrun. exists (evs0 ++ evs). split.
  - unfold life in *. rewrite forallb_app. now rewrite Hlife0, Hlife.
  - change (Mount :: evs0 ++ evs) with ((Mount :: evs0) ++ evs).
    now rewrite run_app, Hrun0.
Qed.

(** While a reconnection is pending and the clock has not reached its due
    time, no run constructs a socket or touches the timer. *)
Lemma waiting_run (n : nat) (due : Z) (evs : list Event) (a a' : AppState) :
  waiting n due (hook a) -> life evs -> run evs a = Some a' ->
  (waiting n due (hook a') /\ sockets (hook a') = sockets (hook a))
  \/ (due <= now (hook a'))%Z.
Proof.
  revert a. induction evs as [|e evs IH]; intros a Hw Hlife Hrun.
  - injection Hrun as <-. now left.
  - apply life_cons in Hlife as [Hm Hlife]. cbn [run] in Hrun.
    destruct (step e a) as [a1|] eqn:Hs; [|discriminate].
    destruct (waiting_step n due e a a1 Hw Hm Hs)
      as [_ [(Hw1 & Hs1 & _) | (_ & Hdue & _ & _ & Hn1)]].
    + destruct (IH a1 Hw1 Hlife Hrun) as [[Hw' Hs'] | Hlate].
      * left. split; [assumption|]. now rewrite Hs', Hs1.
      * now right.
    + right. pose proof (run_now _ _ _ Hrun). lia.
Qed.

(** The reconnection schedule.  In any life of the hook, the close of a
    socket, which a transport error runs as well, puts exactly one
    reconnection in the timer queue, due [RECONNECT_INTERVAL_MS] later, and
    sets the signal to [disconnected]; until that time no run constructs a
    socket; once it is reached the timer may fire, it constructs exactly one
    socket and leaves the queue empty; and every later state is again one
    of a life of the hook, so the same holds of the next close, without any
    bound on their number.  A life may contain the cleanup: none of this
    depends on whether the tree has been disposed. *)
Theorem reconnect_once_after_fixed_delay (a a1 : AppState) (ws : nat) :
  reachable a -> step (SocketClose ws) a = Some a1 ->
  let due := (now (hook a) + 3000)%Z in
  step (SocketError ws) a = Some a1
  /\ wsRef (hook a) = Some ws
  /\ timers (hook a) = [] /\ timers (hook a1) = [due]
  /\ status (hook a1) = disconnected
  /\ length (sockets (hook a1)) = length (sockets (hook a))
  /\ (forall evs a2, life evs -> run evs a1 = Some a2 ->
        (now (hook a2) < due)%Z ->
        sockets (hook a2) = sockets (hook a1) /\ timers (hook a2) = [due])
  /\ (forall evs a2, life evs -> run evs a1 = Some a2 ->
        timers (hook a2) = [due] ->
        (step (TimerFire 0) a2 <> None <-> (due <= now (hook a2))%Z)
        /\ forall a3, step (TimerFire 0) a2 = Some a3 ->
             sockets (hook a3) = sockets (hook a2) ++ [WebSocket.new]
             /\ wsRef (hook a3) = Some (length (sockets (hook a2)))
             /\ timers (hook a3) = [])
  /\ (forall evs a2, life evs -> run evs a1 = Some a2 -> reachable a2).
Proof.
  intros Hreach Hs due.
  assert (Herr : step (SocketError ws) a = Some a1).
  { cbn [step] in Hs |- *. now rewrite error_is_close. }
  assert (Hreach1 : reachable a1).
  { apply (reachable_run [SocketClose ws] a a1 Hreach); [reflexivity|].
    cbn [run]. now rewrite Hs. }
  destruct (reachable_chain a Hreach) as [n [Hl | [d Hw]]];
    [|now destruct (waiting_step n d (SocketClose ws) a a1 Hw eq_refl Hs) as [[=] _]].
  destruct (live_step n (SocketClose ws) a a1 Hl eq_refl Hs)
    as [Hcur [([=] & _) | (_ & Hw1 & _)]].
  pose proof (Hcur ws eq_refl) as ->.
  pose proof Hl as (Hlen & Hr & _ & _ & Ht).
  pose proof Hw1 as (Hlen1 & _ & _ & Ht1 & Hst1).
  change (now (hook a) + RECONNECT_INTERVAL_MS)%Z with due in *.
  split; [assumption|]. do 4 (split; [assumption|]).
  split; [now rewrite Hlen, Hlen1|]. split; [|split].
  - intros evs a2 Hlife Hrun Hearly.
    destruct (waiting_run n due evs a1 a2 Hw1 Hlife Hrun) as [[Hw2 Hs2] | Hlate];
      [|lia].
    split; [assumption|]. now destruct Hw2 as (_ & _ & _ & ? & _).
  - intros evs a2 Hlife Hrun Hpending.
    assert (Hw2 : exists m, waiting m due (hook a2)).
    { destruct (reachable_chain a2 (reachable_run evs a1 a2 Hreach1 Hlife Hrun))
        as [m [Hl2 | [d2 Hw2]]].
      - destruct Hl2 as (_ & _ & _ & _ & Ht2). congruence.
      - exists m. pose proof Hw2 as (_ & _ & _ & Ht2 & _).
        rewrite Hpending in Ht2. now injection Ht2 as <-. }
    destruct Hw2 as [m Hw2].
    pose proof Hw2 as (Hlen2 & _ & _ & Ht2 & _). split.
    + simpl. rewrite Ht2. simpl.
      destruct (due <=? now (hook a2))%Z eqn:E.
      * apply Z.leb_le in E. split; [tauto|discriminate].
      * apply Z.leb_gt in E. split; [congruence|lia].
    + intros a3 Hfire.
      destruct (waiting_step m due (TimerFire 0) a2 a3 Hw2 eq_refl Hfire)
        as [_ [(Hw3 & Hs3 & _) | (_ & _ & Hl3 & Hs3 & _)]].
      * exfalso. simpl in Hfire. rewrite Ht2 in Hfire. simpl in Hfire.
        destruct (due <=? now (hook a2))%Z; [|discriminate].
        injection Hfire as <-. destruct Hw3 as (_ & _ & _ & Ht3 & _).
        unfold connect in Ht3. now destruct (current_is_open _).
      * split; [assumption|].
        destruct Hl3 as (_ & Hr3 & _ & _ & Ht3). rewrite Hlen2. now split.
  - intros evs a2 Hlife Hrun. now apply (reachable_run evs a1).
Qed.

(** C5, as the code has it.  The hook keeps no identity of its connection
    instances; what protects the state is the order of events.  In a life of
    the hook every socket other than the current one is closed, each event
    the page delivers to a socket goes to the current one, and a
    reconnection constructs its socket only when every earlier one is
    closed: no earlier instance delivers anything afterwards. *)
Theorem only_current_instance_delivers (a : AppState) :
  reachable a ->
  (forall j s, sockets (hook a) !! j = Some s -> wsRef (hook a) <> Some j ->
               readyState s = CLOSED)
  /\ (forall e ws a', socket_of e = Some ws -> step e a = Some a' ->
                      wsRef (hook a) = Some ws)
  /\ (forall k a', step (TimerFire k) a = Some a' ->
        (forall j s, sockets (hook a) !! j = Some s -> readyState s = CLOSED)
        /\ sockets (hook a') = sockets (hook a) ++ [WebSocket.new]
        /\ wsRef (hook a') = Some (length (sockets (hook a)))).
Proof.
  intros Hreach. destruct (reachable_chain a Hreach) as [n [Hl | [d Hw]]].
  - pose proof Hl as (Hlen & Hr & Hold & _ & Ht). split; [|split].
    + intros j s Hj Hne. destruct (ReadyState_eqb (readyState s) CLOSED) eqn:E.
      * now destruct (readyState s).
      * exfalso. apply Hne. rewrite Hr. f_equal. symmetry.
        apply (live_not_closed_current n j (hook a) s Hl Hj).
        intros Hc. rewrite Hc in E. discriminate.
    + intros e ws a' He Hs.
      assert (Hm : is_Mount e = false) by now destruct e.
      destruct (live_step n e a a' Hl Hm Hs) as [Hcur _].
      now rewrite (Hcur ws He).
    + intros k a' Hs. simpl in Hs. rewrite Ht in Hs. discriminate.
  - pose proof Hw as (Hlen & Hr & _ & Ht & _). split; [|split].
    + intros j s Hj _. now apply (waiting_all_closed n j d (hook a)).
    + intros e ws a' He Hs.
      assert (Hm : is_Mount e = false) by now destruct e.
      destruct (waiting_step n d e a a' Hw Hm Hs) as [Hnone _]. congruence.
    + intros k a' Hs.
      split; [intros j s Hj; now apply (waiting_all_closed n j d (hook a))|].
      destruct (waiting_step n d (TimerFire k) a a' Hw eq_refl Hs)
        as [_ [(Hw' & Hs' & _) | (_ & _ & Hl' & Hs' & _)]].
      * exfalso. simpl in Hs. rewrite Ht in Hs.
        destruct k as [|k]; [|discriminate]. simpl in Hs.
        destruct (d <=? now (hook a))%Z; [|discriminate].
        injection Hs as <-. destruct Hw' as (_ & _ & _ & Ht' & _).
        simpl in Ht'. unfold connect in Ht'. now destruct (current_is_open _).
      * split; [assumption|]. destruct Hl' as (_ & Hr' & _). now rewrite Hlen.
Qed.

(** ** The properties at concrete inputs *)

Lemma sendIntent_resets_before_sending_witness :
  updates (hook (after task_session)) = [update_planning; update_browsing]
  /\ summary (hook (after task_session)) = JS.Str "Found RTX 5070 at $599"
  /\ updates (fst (sendIntent "next" (hook (after task_session)))) = []
  /\ summary (fst (sendIntent "next" (hook (after task_session)))) = JS.Null.
Proof.
  split; [by_evaluation|]. split; [by_evaluation|].
  destruct (sendIntent_resets_before_sending "next" (hook (after task_session)))
    as (pre & _ & _ & _ & _ & _ & Hu & Hs & _).
  split; [exact Hu|exact Hs].
Defined.

Lemma submit_ignored_unless_connected_witness :
  status (hook offline) <> connected
  /\ App.submit offline = (offline, Normal) /\ step Submit offline = Some offline.
Proof.
  assert (H : status (hook offline) <> connected) by by_evaluation.
  split; [exact H|].
  exact (submit_ignored_unless_connected offline H).
Defined.

Lemma submit_blank_is_noop_witness :
  JS.whitespace_only (value blank_typed) = true
  /\ status (hook blank_typed) = connected
  /\ App.submit blank_typed = (blank_typed, Normal)
  /\ step Submit blank_typed = Some blank_typed.
Proof.
  assert (H : JS.whitespace_only (value blank_typed) = true) by by_evaluation.
  split; [exact H|]. split; [by_evaluation|].
  exact (submit_blank_is_noop blank_typed H).
Defined.

Lemma history_is_received_updates_witness :
  forallb (fun e => negb (is_Submit e)) task_frames = true
  /\ run task_frames submitted = Some (after task_session)
  /\ updates (hook submitted) = []
  /\ updates (hook (after task_session)) = received_updates task_frames
  /\ length (updates (hook (after task_session))) = 2.
Proof.
  assert (H1 : forallb (fun e => negb (is_Submit e)) task_frames = true)
    by by_evaluation.
  assert (H2 : run task_frames submitted = Some (after task_session))
    by by_evaluation.
  assert (H3 : updates (hook submitted) = []) by by_evaluation.
  split; [exact H1|]. split; [exact H2|]. split; [exact H3|].
  destruct (history_is_received_updates task_frames submitted
              (after task_session) H1 H2) as (_ & H & _).
  destruct (H H3) as [E1 E2]. split; [exact E1|]. rewrite E2. by_evaluation.
Defined.


Lemma resultPanel_iff_nonempty_summary_witness :
  AgentHUD.resultPanel (summary (ws_onmessage (JS.Json result_found) useWebSocket))
  = Some (JS.Str "Found RTX 5070 at $599").
Proof.
  assert (H : result_summary_of (JS.Json result_found)
              = Some (JS.Str "Found RTX 5070 at $599")) by by_evaluation.
  destruct (resultPanel_iff_nonempty_summary (JS.Json result_found)
              "Found RTX 5070 at $599" useWebSocket H) as (_ & Hshown & _).
  apply Hshown. discriminate.
Defined.

Lemma reachable_connected : reachable (after [Mount; SocketOpen 0]).
Proof. exists [SocketOpen 0]. split; by_evaluation. Defined.

Lemma reachable_reconnect_due : reachable reconnect_due.
Proof. exists [SocketClose 0; Elapse 3000]. split; by_evaluation. Defined.

Lemma reachable_reconnected : reachable reconnected.
Proof.
  exists [SocketClose 0; Elapse 3000; TimerFire 0; SocketOpen 1].
  split; by_evaluation.
Defined.

Lemma only_current_instance_delivers_witness :
  reachable reconnect_due
  /\ step (TimerFire 0) reconnect_due
     = Some (after [Mount; SocketClose 0; Elapse 3000; TimerFire 0])
  /\ (forall j s, sockets (hook reconnect_due) !! j = Some s ->
                  readyState s = CLOSED)
  /\ sockets (hook (after [Mount; SocketClose 0; Elapse 3000; TimerFire 0]))
     = sockets (hook reconnect_due) ++ [WebSocket.new]
  /\ reachable reconnected
  /\ length (sockets (hook reconnected)) = 2
  /\ sockets (hook reconnected) !! 0 = Some (WebSocket.mk CLOSED [])
  /\ wsRef (hook reconnected) <> Some 0
  /\ readyState (WebSocket.mk CLOSED []) = CLOSED
  /\ step (SocketMessage 1 (JS.Json update_planning)) reconnected
     = Some (after [Mount; SocketClose 0; Elapse 3000; TimerFire 0; SocketOpen 1;
                    SocketMessage 1 (JS.Json update_planning)])
  /\ wsRef (hook reconnected) = Some 1.
Proof.
  assert (Hfire : step (TimerFire 0) reconnect_due
                  = Some (after [Mount; SocketClose 0; Elapse 3000; TimerFire 0]))
    by by_evaluation.
  assert (Hold : sockets (hook reconnected) !! 0 = Some (WebSocket.mk CLOSED []))
    by by_evaluation.
  assert (Hnot : wsRef (hook reconnected) <> Some 0) by by_evaluation.
  assert (Hmsg : step (SocketMessage 1 (JS.Json update_planning)) reconnected
                 = Some (after [Mount; SocketClose 0; Elapse 3000; TimerFire 0;
                                SocketOpen 1;
                                SocketMessage 1 (JS.Json update_planning)]))
    by by_evaluation.
  destruct (only_current_instance_delivers _ reachable_reconnect_due)
    as (_ & _ & Hre).
  destruct (Hre 0 _ Hfire) as (Hclosed & Hnew & _).
  destruct (only_current_instance_delivers _ reachable_reconnected)
    as (Hstale & Hcur & _).
  split; [exact reachable_reconnect_due|]. split; [exact Hfire|].
  split; [exact Hclosed|]. split; [exact Hnew|].
  split; [exact reachable_reconnected|]. split; [by_evaluation|].
  split; [exact Hold|]. split; [exact Hnot|].
  split; [exact (Hstale 0 _ Hold Hnot)|]. split; [exact Hmsg|].
  exact (Hcur (SocketMessage 1 (JS.Json update_planning)) 1 _ eq_refl Hmsg).
Defined.

Lemma reachable_disposed : reachable (after [Mount; SocketOpen 0; Unmount]).
Proof. exists [SocketOpen 0; Unmount]. split; by_evaluation. Defined.

Lemma reconnect_once_after_fixed_delay_witness :
  step (SocketClose 0) (after [Mount; SocketOpen 0; Unmount])
  = Some (after [Mount; SocketOpen 0; Unmount; SocketClose 0])
  /\ timers (hook (after [Mount; SocketOpen 0; Unmount; SocketClose 0]))
     = [(now (hook (after [Mount; SocketOpen 0; Unmount])) + 3000)%Z].
Proof.
  assert (H : step (SocketClose 0) (after [Mount; SocketOpen 0; Unmount])
              = Some (after [Mount; SocketOpen 0; Unmount; SocketClose 0]))
    by by_evaluation.
  split; [exact H|].
  now destruct (reconnect_once_after_fixed_delay
                  (after [Mount; SocketOpen 0; Unmount])
                  (after [Mount; SocketOpen 0; Unmount; SocketClose 0]) 0
                  reachable_disposed H) as (_ & _ & _ & Ht & _).
Defined.

(** C5 as stated fails.  The effect is run, cleaned up and run again, which
    leaves the first socket closing and makes the second one current.
    First, the second socket opens and then the first one's close arrives:
    the callback of the old instance sets the signal to [disconnected] while
    the current socket is open, and times a reconnection.  Second, the
    first socket's close times a reconnection that constructs a third socket
    while the second is still connecting: the second socket is now an old
    instance, and its open and message callbacks still set the signal and
    extend the history. *)
Lemma stale_instance_callbacks_take_effect :
  exists a a' b b',
    run [Mount; Unmount; Mount; SocketOpen 1] initial = Some a
    /\ wsRef (hook a) = Some 1 /\ status (hook a) = connected
    /\ ready (hook a) 1 = Some OPEN /\ timers (hook a) = []
    /\ step (SocketClose 0) a = Some a'
    /\ wsRef (hook a') = Some 1 /\ ready (hook a') 1 = Some OPEN
    /\ status (hook a') = disconnected /\ timers (hook a') = [3000%Z]
    /\ run [Mount; Unmount; Mount; SocketClose 0; Elapse 3000; TimerFire 0] initial
       = Some b
    /\ wsRef (hook b) = Some 2 /\ status (hook b) = disconnected
    /\ updates (hook b) = []
    /\ run [SocketOpen 1; SocketMessage 1 (JS.Json update_planning)] b = Some b'
    /\ wsRef (hook b') = Some 2 /\ status (hook b') = connected
    /\ updates (hook b') = [update_planning].
Proof.
  exists (after [Mount; Unmount; Mount; SocketOpen 1]),
         (after [Mount; Unmount; Mount; SocketOpen 1; SocketClose 0]),
         (after [Mount; Unmount; Mount; SocketClose 0; Elapse 3000; TimerFire 0]),
         (after [Mount; Unmount; Mount; SocketClose 0; Elapse 3000; TimerFire 0;
                 SocketOpen 1; SocketMessage 1 (JS.Json update_planning)]).
  vm_compute. repeat split.
Qed.

(** C6 at a failing input.  The tree is disposed while connected: the cleanup
    closes the socket, the close event then times a reconnection, and when
    it fires a new socket is constructed. *)
Theorem reconnect_outlives_disposal :
  (readyState <$> sockets (hook (after [Mount; SocketOpen 0; Unmount]))) = [CLOSING]
  /\ timers (hook (after [Mount; SocketOpen 0; Unmount])) = []
  /\ run [Mount; SocketOpen 0; Unmount; SocketClose 0] initial
     = Some {| hook := {| status := disconnected; updates := []; summary := JS.Null;
                          wsRef := Some 0; sockets := [WebSocket.mk CLOSED []];
                          timers := [3000%Z]; now := 0%Z |};
               showHUD := false; value := "" |}
  /\ run [Mount; SocketOpen 0; Unmount; SocketClose 0; Elapse 3000; TimerFire 0]
         initial
     = Some {| hook := {| status := disconnected; updates := []; summary := JS.Null;
                          wsRef := Some 1;
                          sockets := [WebSocket.mk CLOSED []; WebSocket.new];
                          timers := []; now := 3000%Z |};
               showHUD := false; value := "" |}.
Proof. vm_compute. repeat split. Qed.

(** C7 at a failing input.  The tree is disposed while a reconnection is
    pending: the timer stays in the queue, cannot fire before its 3000 ms
    are over, and fires after them, constructing a socket; that socket's
    close times the next reconnection. *)
Theorem pending_reconnect_survives_disposal :
  timers (hook (after [Mount; SocketError 0; Unmount])) = [3000%Z]
  /\ run [Mount; SocketError 0; Unmount; Elapse 2999; TimerFire 0] initial = None
  /\ run [Mount; SocketError 0; Unmount; Elapse 3000; TimerFire 0] initial
     = Some {| hook := {| status := disconnected; updates := []; summary := JS.Null;
                          wsRef := Some 1;
                          sockets := [WebSocket.mk CLOSED []; WebSocket.new];
                          timers := []; now := 3000%Z |};
               showHUD := false; value := "" |}
  /\ timers (hook (after [Mount; SocketError 0; Unmount; Elapse 3000; TimerFire 0;
                          SocketClose 1])) = [6000%Z].
Proof. vm_compute. repeat split. Qed.

(** * Further properties of the session client *)

(** ** History and result over whole runs *)

Lemma submit_updates (a : AppState) :
  updates (hook (fst (App.submit a))) = updates (hook a)
  \/ updates (hook (fst (App.submit a))) = [].
Proof.
  destruct (submit_hook a) as [-> | [_ ->]]; [now left|right].
  unfold sendIntent.
  now destruct (current_send_session
                  (JS.JSON_stringify (intent_message (JS.trim (value a))))
                  (setSummary JS.Null (setUpdates (fun _ => []) (hook a))))
    as (_ & -> & _).
Qed.

Lemma run_updates_suffix (evs : list Event) (a a' : AppState) :
  run evs a = Some a' ->
  updates (hook a') `suffix_of` (updates (hook a) ++ received_updates evs).
Proof.
  revert a. induction evs as [|e evs IH]; intros a Hrun.
  - injection Hrun as <-. simpl. now rewrite app_nil_r.
  - cbn [run] in Hrun. destruct (step e a) as [a1|] eqn:Hs; [|discriminate].
    specialize (IH a1 Hrun). rewrite (received_updates_cons e evs).
    destruct (is_Submit e) eqn:He.
    + destruct e; try discriminate He. simpl in Hs. injection Hs as <-.
      simpl. destruct (submit_updates a) as [E | E]; rewrite E in IH.
      * exact IH.
      * etransitivity; [exact IH|]. simpl. apply suffix_app_r. reflexivity.
    + rewrite (step_updates e a a1 He Hs) in IH. now rewrite app_assoc.
Qed.

(** X1.  Whatever a run contains, submissions included, the history at its
    end is a suffix of the history at its start followed by the
    [state_update] messages the run received, in arrival order: the hook
    never reorders, duplicates or invents an entry, and only ever drops a
    whole prefix.  So the history is never longer than what was there and
    what was received. *)
Theorem history_is_suffix_of_received (evs : list Event) (a a' : AppState) :
  run evs a = Some a' ->
  updates (hook a') `suffix_of` (updates (hook a) ++ received_updates evs)
  /\ length (updates (hook a'))
     <= length (updates (hook a)) + length (received_updates evs).
Proof.
  intros Hrun. pose proof (run_updates_suffix evs a a' Hrun) as Hsuf.
  split; [exact Hsuf|].
  apply suffix_length in Hsuf. now rewrite length_app in Hsuf.
Qed.

Lemma state_update_of_entry (data : JS.Frame) (msg : JS.Value) :
  state_update_of data = Some msg -> state_update_entry msg.
Proof.
  unfold state_update_of, state_update_entry.
  destruct (JS.JSON_parse data) as [m|]; [|discriminate].
  destruct (JS.get m "type") as [ty|] eqn:Hty; [|discriminate].
  destruct (JS.strict_eq_str ty "state_update") eqn:E; [|discriminate].
  intros [= <-]. rewrite Hty. f_equal.
  destruct ty; try discriminate E. simpl in E.
  apply String.eqb_eq in E. now subst.
Qed.

Lemma received_updates_entries (evs : list Event) :
  Forall state_update_entry (received_updates evs).
Proof.
  induction evs as [|e evs IH]; [constructor|].
  destruct e; try exact IH. simpl.
  destruct (state_update_of data) as [msg|] eqn:Hm; [|exact IH].
  constructor; [now apply (state_update_of_entry data)|exact IH].
Qed.

Lemma state_update_entry_Obj (u : JS.Value) :
  state_update_entry u -> exists props, u = JS.Obj props.
Proof.
  unfold state_update_entry. destruct u; simpl; try discriminate. eauto.
Qed.

(** X2.  Every entry of the history is an object whose [type] reads
    [state_update], along any run that starts from such a history (the
    empty one in particular).  So a property read on an entry never throws,
    and the entry the HUD calls [latest] is the last one received. *)
Theorem history_entries_are_state_updates
    (evs : list Event) (a a' : AppState) :
  Forall state_update_entry (updates (hook a)) ->
  run evs a = Some a' ->
  Forall state_update_entry (updates (hook a'))
  /\ (forall u key, u ∈ updates (hook a') -> JS.get u key <> None)
  /\ (forall u, last (updates (hook a')) = Some u ->
                AgentHUD.latest (updates (hook a')) = u).
Proof.
  intros Hinit Hrun.
  assert (Hall : Forall state_update_entry (updates (hook a'))).
  { destruct (run_updates_suffix evs a a' Hrun) as [k Hk].
    assert (H : Forall state_update_entry (updates (hook a) ++ received_updates evs)).
    { apply Forall_app. split; [exact Hinit|apply received_updates_entries]. }
    rewrite Hk in H. now apply Forall_app in H as [_ H]. }
  split; [exact Hall|]. rewrite Forall_forall in Hall. split.
  - intros u key Hu. destruct (state_update_entry_Obj u (Hall u Hu)) as [props ->].
    discriminate.
  - intros u Hu.
    assert (Hin : u ∈ updates (hook a')).
    { apply last_Some in Hu as [l' ->]. apply elem_of_app. right.
      now apply list_elem_of_singleton. }
    destruct (state_update_entry_Obj u (Hall u Hin)) as [props ->].
    unfold AgentHUD.latest. now rewrite Hu.
Qed.

Lemma submit_summary (a : AppState) :
  summary (hook (fst (App.submit a))) = summary (hook a)
  \/ summary (hook (fst (App.submit a))) = JS.Null.
Proof.
  destruct (submit_hook a) as [-> | [_ ->]]; [now left|right].
  unfold sendIntent.
  now destruct (current_send_session
                  (JS.JSON_stringify (intent_message (JS.trim (value a))))
                  (setSummary JS.Null (setUpdates (fun _ => []) (hook a))))
    as (_ & _ & -> & _).
Qed.

(** What one frame does to the two cells. *)
Lemma ws_onmessage_cells (data : JS.Frame) (h : Hook) :
  (exists msg, state_update_of data = Some msg
     /\ ws_onmessage data h = setUpdates (fun prev => prev ++ [msg]) h)
  \/ (exists s, result_summary_of data = Some s
        /\ ws_onmessage data h = setSummary s h)
  \/ ws_onmessage data h = h.
Proof.
  unfold state_update_of, result_summary_of, ws_onmessage.
  destruct (JS.JSON_parse data) as [m|]; [|now right; right].
  destruct (JS.get m "type") as [ty|]; [|now right; right].
  destruct (JS.strict_eq_str ty "state_update"); [left; eauto|].
  destruct (JS.strict_eq_str ty "result"); [|now right; right].
  destruct (JS.get m "summary") as [v|]; [right; left; eauto|now right; right].
Qed.

Lemma step_summary (e : Event) (a a' : AppState) :
  step e a = Some a' ->
  summary (hook a') = summary (hook a)
  \/ summary (hook a') = JS.Null
  \/ exists ws data, e = SocketMessage ws data
        /\ result_summary_of data = Some (summary (hook a')).
Proof.
  intros Hs. destruct (is_Submit e) eqn:He.
  - destruct e; try discriminate He. simpl in Hs. injection Hs as <-.
    destruct (submit_summary a) as [E | E]; tauto.
  - apply step_hook_step in Hs; [|assumption].
    destruct e; try discriminate He; simpl in Hs.
    + injection Hs as <-. left. unfold effect_mount, connect.
      now destruct (current_is_open _).
    + injection Hs as <-. left. unfold effect_cleanup. now destruct (wsRef _).
    + apply deliver_Some in Hs as (s & _ & _ & ->). now left.
    + apply deliver_Some in Hs as (s & _ & _ & ->).
      destruct (ws_onmessage_cells data
                  (set_sockets (<[ws:=set_readyState OPEN s]> (sockets (hook a)))
                     (hook a)))
        as [(msg & _ & ->) | [(v & Hv & ->) | ->]]; [now left| |now left].
      right. right. exists ws, data. now split.
    + apply deliver_Some in Hs as (s & _ & _ & ->). now left.
    + apply deliver_Some in Hs as (s & _ & _ & ->). now left.
    + destruct (timers (hook a) !! k) as [due|]; [|discriminate].
      destruct (due <=? now (hook a))%Z; [|discriminate].
      injection Hs as <-. left. unfold connect. now destruct (current_is_open _).
    + destruct (0 <=? dt)%Z; [|discriminate]. injection Hs as <-. now left.
    + injection Hs as <-. now left.
    + injection Hs as <-. now left.
Qed.

(** X3.  At the end of any run the result is the one the run started with,
    or absent, or the [summary] of a result frame the run received: no
    other event writes it.  A single frame extends the history or sets the
    result, never both, and touches nothing else of the hook. *)
Theorem result_comes_from_a_result_frame (evs : list Event) (a a' : AppState) :
  run evs a = Some a' ->
  (summary (hook a') = summary (hook a)
   \/ summary (hook a') = JS.Null
   \/ exists ws data, SocketMessage ws data ∈ evs
         /\ result_summary_of data = Some (summary (hook a')))
  /\ (forall data h,
        let h' := ws_onmessage data h in
        status h' = status h /\ wsRef h' = wsRef h /\ sockets h' = sockets h
        /\ timers h' = timers h /\ now h' = now h
        /\ ((exists msg, updates h' = updates h ++ [msg]
                         /\ summary h' = summary h)
            \/ updates h' = updates h)).
Proof.
  intros Hrun. split.
  - revert a Hrun. induction evs as [|e evs IH]; intros a Hrun.
    + injection Hrun as <-. now left.
    + cbn [run] in Hrun. destruct (step e a) as [a1|] eqn:Hs; [|discriminate].
      destruct (IH a1 Hrun) as [E | [E | (ws & data & Hin & Hr)]].
      * rewrite E.
        destruct (step_summary e a a1 Hs) as [E1 | [E1 | (ws & data & -> & Hr)]];
          [tauto..|].
        right. right. exists ws, data. split; [|exact Hr].
        apply elem_of_cons. now left.
      * tauto.
      * right. right. exists ws, data. split; [|exact Hr].
        apply elem_of_cons. now right.
  - intros data h h'. unfold h'.
    destruct (ws_onmessage_cells data h)
      as [(msg & _ & ->) | [(v & _ & ->) | ->]]; simpl;
      repeat split; eauto.
Qed.

(** ** Timers and sockets over whole runs *)

Lemma sent_frames_insert_ready (h : Hook) (ws : nat) (s : WebSocket.t)
    (r : ReadyState) :
  sockets h !! ws = Some s ->
  sent_frames (set_sockets (<[ws := set_readyState r s]> (sockets h)) h)
  = sent_frames h.
Proof.
  intros Hs. unfold sent_frames. simpl. rewrite list_fmap_insert. simpl.
  rewrite list_insert_id; [reflexivity|]. now rewrite list_lookup_fmap, Hs.
Qed.

Lemma sent_alter_close (l : list WebSocket.t) (i : nat) :
  sent <$> alter WebSocket.close i l = sent <$> l.
Proof.
  rewrite (list_fmap_alter sent WebSocket.close id).
  - now apply list_alter_id.
  - apply Forall_forall. intros s _. unfold WebSocket.close.
    now destruct (readyState s).
Qed.

Lemma connect_effect (h : Hook) :
  timers (connect h) = timers h /\ now (connect h) = now h
  /\ sent_frames (connect h) = sent_frames h
  /\ length (sockets h) <= length (sockets (connect h))
  /\ length (sockets (connect h)) <= S (length (sockets h)).
Proof.
  unfold connect. destruct (current_is_open h); simpl.
  - repeat split; lia.
  - repeat split; try (rewrite length_app; simpl; lia).
    unfold sent_frames. simpl. rewrite fmap_app, concat_app. simpl.
    now rewrite app_nil_r.
Qed.

Lemma ws_onmessage_conn (data : JS.Frame) (h : Hook) :
  status (ws_onmessage data h) = status h
  /\ wsRef (ws_onmessage data h) = wsRef h
  /\ sockets (ws_onmessage data h) = sockets h
  /\ timers (ws_onmessage data h) = timers h
  /\ now (ws_onmessage data h) = now h.
Proof.
  destruct (ws_onmessage_cells data h) as [(msg & _ & ->) | [(v & _ & ->) | ->]];
    now repeat split.
Qed.

(** What an event other than a submission does to the timer queue, the
    sockets and the wire. *)
Lemma hook_step_effect (e : Event) (h h' : Hook) :
  hook_step e h = Some h' ->
  length (timers h') + Nat.b2n (is_TimerFire e)
  = length (timers h) + Nat.b2n (ends_connection e)
  /\ (forall due, due ∈ timers h' ->
        due ∈ timers h \/ due = (now h + RECONNECT_INTERVAL_MS)%Z)
  /\ length (sockets h) <= length (sockets h')
  /\ length (sockets h')
     <= length (sockets h) + Nat.b2n (is_Mount e || is_TimerFire e)
  /\ sent_frames h' = sent_frames h.
Proof.
  intros Hs. destruct e; simpl in Hs.
  - injection Hs as <-. unfold effect_mount.
    destruct (connect_effect h) as (Ht & _ & Hw & Hl1 & Hl2).
    rewrite Ht. simpl. repeat split; auto; lia.
  - injection Hs as <-. unfold effect_cleanup.
    destruct (wsRef h) as [i|]; simpl.
    + rewrite length_alter. repeat split; auto; try lia.
      unfold sent_frames. simpl. now rewrite sent_alter_close.
    + repeat split; auto; lia.
  - apply deliver_Some in Hs as (s & Hws & _ & ->). simpl.
    rewrite length_insert. repeat split; auto; try lia.
    apply (sent_frames_insert_ready h ws s OPEN Hws).
  - apply deliver_Some in Hs as (s & Hws & _ & ->).
    destruct (ws_onmessage_conn data
                (set_sockets (<[ws:=set_readyState OPEN s]> (sockets h)) h))
      as (_ & _ & Hsock & Ht & _).
    unfold sent_frames. rewrite Hsock, Ht. simpl.
    rewrite length_insert. repeat split; auto; try lia.
    apply (sent_frames_insert_ready h ws s OPEN Hws).
  - apply deliver_Some in Hs as (s & Hws & _ & ->). simpl.
    rewrite length_app, length_alter, length_insert. simpl.
    split; [lia|]. split.
    { intros due [Hin | Hin]%elem_of_app; [now left|right].
      now apply list_elem_of_singleton in Hin. }
    repeat split; try lia.
    unfold sent_frames. simpl. rewrite sent_alter_close.
    apply (sent_frames_insert_ready h ws s CLOSED Hws).
  - apply deliver_Some in Hs as (s & Hws & _ & ->). simpl.
    rewrite length_app, length_insert. simpl.
    split; [lia|]. split.
    { intros due [Hin | Hin]%elem_of_app; [now left|right].
      now apply list_elem_of_singleton in Hin. }
    repeat split; try lia.
    apply (sent_frames_insert_ready h ws s CLOSED Hws).
  - destruct (timers h !! k) as [due|] eqn:Hk; [|discriminate].
    destruct (due <=? now h)%Z; [|discriminate]. injection Hs as <-.
    destruct (connect_effect (set_timers (delete k (timers h)) h))
      as (Ht & _ & Hw & Hl1 & Hl2).
    rewrite Ht. simpl in *. rewrite length_delete by eauto.
    pose proof (lookup_lt_Some _ _ _ Hk).
    split; [lia|]. split.
    { intros d Hd. left. now apply list_elem_of_delete_inv in Hd. }
    repeat split; auto; lia.
  - destruct (0 <=? dt)%Z; [|discriminate]. injection Hs as <-. simpl.
    repeat split; auto; lia.
  - injection Hs as <-. simpl. repeat split; auto; lia.
  - injection Hs as <-. simpl. repeat split; auto; lia.
  - injection Hs as <-. simpl. repeat split; auto; lia.
Qed.

Lemma submit_conn (a : AppState) :
  status (hook (fst (App.submit a))) = status (hook a)
  /\ wsRef (hook (fst (App.submit a))) = wsRef (hook a)
  /\ timers (hook (fst (App.submit a))) = timers (hook a)
  /\ now (hook (fst (App.submit a))) = now (hook a)
  /\ readyState <$> sockets (hook (fst (App.submit a)))
     = readyState <$> sockets (hook a).
Proof.
  destruct (submit_hook a) as [-> | [_ ->]]; [now repeat split|].
  apply sendIntent_conn.
Qed.

(** The timer queue and the sockets after one event, a submission included. *)
Lemma step_connection_effect (e : Event) (a a' : AppState) :
  step e a = Some a' ->
  length (timers (hook a')) + Nat.b2n (is_TimerFire e)
  = length (timers (hook a)) + Nat.b2n (ends_connection e)
  /\ (forall due, due ∈ timers (hook a') ->
        due ∈ timers (hook a) \/ due = (now (hook a) + RECONNECT_INTERVAL_MS)%Z)
  /\ length (sockets (hook a)) <= length (sockets (hook a'))
  /\ length (sockets (hook a'))
     <= length (sockets (hook a)) + Nat.b2n (is_Mount e || is_TimerFire e).
Proof.
  intros Hs. destruct (is_Submit e) eqn:He.
  - destruct e; try discriminate He. simpl in Hs. injection Hs as <-.
    destruct (submit_conn a) as (_ & _ & Ht & _ & Hr).
    destruct (ready_fmap_eq _ _ Hr) as [Hl _].
    rewrite Ht, Hl. simpl. repeat split; auto; lia.
  - apply step_hook_step in Hs; [|assumption].
    destruct (hook_step_effect e _ _ Hs) as (H1 & H2 & H3 & H4 & _).
    now repeat split.
Qed.

(** X4.  Over any run, every close or error event puts exactly one
    reconnection in the timer queue and only a firing timer takes one out:
    the reconnections still pending plus those that fired are the ones
    there were plus the closes and errors of the run.  And no reconnection
    is ever timed further than [RECONNECT_INTERVAL_MS] ahead of the
    clock. *)
Theorem every_close_times_one_reconnection
    (evs : list Event) (a a' : AppState) :
  run evs a = Some a' ->
  length (timers (hook a')) + count_events is_TimerFire evs
  = length (timers (hook a)) + count_events ends_connection evs
  /\ (Forall (fun due => (due <= now (hook a) + 3000)%Z) (timers (hook a)) ->
      Forall (fun due => (due <= now (hook a') + 3000)%Z) (timers (hook a'))).
Proof.
  revert a. induction evs as [|e evs IH]; intros a Hrun.
  - injection Hrun as <-. simpl. split; [lia|auto].
  - cbn [run] in Hrun. destruct (step e a) as [a1|] eqn:Hs; [|discriminate].
    destruct (IH a1 Hrun) as [IH1 IH2].
    destruct (step_connection_effect e a a1 Hs) as (H1 & H2 & _).
    pose proof (step_now e a a1 Hs) as Hnow.
    cbn [count_events]. split.
    + destruct (is_TimerFire e), (ends_connection e); simpl in H1; lia.
    + intros Hall. apply IH2. rewrite Forall_forall in Hall |- *.
      intros due Hin. destruct (H2 due Hin) as [Hold | ->].
      * specialize (Hall due Hold). lia.
      * unfold RECONNECT_INTERVAL_MS. lia.
Qed.

Lemma fired_timer_leaves_queue (k : nat) (a a' : AppState) :
  step (TimerFire k) a = Some a' ->
  timers (hook a') = delete k (timers (hook a)).
Proof.
  simpl. destruct (timers (hook a) !! k) as [due|]; [|discriminate].
  destruct (due <=? now (hook a))%Z; [|discriminate]. intros [= <-]. simpl.
  unfold connect. now destruct (current_is_open _).
Qed.

(** Along a life the index of the current socket counts the timers fired. *)
Lemma chain_counts_attempts (evs : list Event) (n : nat) (a a' : AppState) :
  live n (hook a) \/ (exists due, waiting n due (hook a)) ->
  life evs -> run evs a = Some a' ->
  live (n + count_events is_TimerFire evs) (hook a')
  \/ exists due, waiting (n + count_events is_TimerFire evs) due (hook a').
Proof.
  revert n a. induction evs as [|e evs IH]; intros n a Hc Hlife Hrun.
  - injection Hrun as <-. simpl. now rewrite Nat.add_0_r.
  - apply life_cons in Hlife as [Hm Hlife]. cbn [run] in Hrun.
    destruct (step e a) as [a1|] eqn:Hs; [|discriminate]. cbn [count_events].
    destruct Hc as [Hl | [due Hw]].
    + assert (Hnf : is_TimerFire e = false).
      { destruct e; try reflexivity. simpl in Hs.
        destruct Hl as (_ & _ & _ & _ & Ht). rewrite Ht in Hs. discriminate. }
      rewrite Hnf. simpl.
      destruct (live_step n e a a1 Hl Hm Hs) as [_ [(_ & Hl1 & _) | (_ & Hw1 & _)]].
      * apply (IH n a1); auto.
      * apply (IH n a1); eauto.
    + destruct (waiting_step n due e a a1 Hw Hm Hs)
        as [_ [(Hw1 & _) | (-> & _ & Hl1 & _)]].
      * assert (Hnf : is_TimerFire e = false).
        { destruct e; try reflexivity.
          pose proof (fired_timer_leaves_queue k a a1 Hs) as Hq.
          destruct Hw as (_ & _ & _ & Ht & _).
          destruct Hw1 as (_ & _ & _ & Ht1 & _).
          rewrite Ht, Ht1 in Hq. destruct k as [|k]; [discriminate Hq|].
          simpl in Hs. rewrite Ht in Hs. discriminate Hs. }
        rewrite Hnf. simpl. apply (IH n a1); eauto.
      * simpl. replace (n + S (count_events is_TimerFire evs))
          with (S n + count_events is_TimerFire evs) by lia.
        apply (IH (S n) a1); auto.
Qed.

(** X5.  Sockets are constructed by the effect body and by firing timers
    only, one at most each time, and none is ever dropped from the hook's
    reach; and in a life of the hook, where the effect runs once, every
    timer that fires constructs exactly one socket, so the sockets
    constructed are one more than the timers fired. *)
Theorem one_socket_per_attempt (evs : list Event) (a a' : AppState) :
  run evs a = Some a' ->
  length (sockets (hook a)) <= length (sockets (hook a'))
  /\ length (sockets (hook a'))
     <= length (sockets (hook a)) + count_events is_Mount evs
        + count_events is_TimerFire evs
  /\ (a = mkApp (effect_mount useWebSocket) false "" -> life evs ->
      length (sockets (hook a')) = 1 + count_events is_TimerFire evs).
Proof.
  intros Hrun. split; [|split].
  - revert a Hrun. induction evs as [|e evs IH]; intros a Hrun.
    + now injection Hrun as <-.
    + cbn [run] in Hrun. destruct (step e a) as [a1|] eqn:Hs; [|discriminate].
      destruct (step_connection_effect e a a1 Hs) as (_ & _ & H3 & _).
      specialize (IH a1 Hrun). lia.
  - revert a Hrun. induction evs as [|e evs IH]; intros a Hrun.
    + injection Hrun as <-. simpl. lia.
    + cbn [run] in Hrun. destruct (step e a) as [a1|] eqn:Hs; [|discriminate].
      destruct (step_connection_effect e a a1 Hs) as (_ & _ & _ & H4).
      specialize (IH a1 Hrun). cbn [count_events].
      destruct (is_Mount e), (is_TimerFire e); simpl in H4; lia.
  - intros -> Hlife.
    destruct (chain_counts_attempts evs 0
                (mkApp (effect_mount useWebSocket) false "") a'
                (or_introl chain_mount) Hlife Hrun)
      as [(Hlen & _) | [due (Hlen & _)]]; simpl in Hlen; lia.
Qed.

(** ** What reaches the wire *)

Lemma trimStart_fixed (s : string) : JS.trimStart (JS.trimStart s) = JS.trimStart s.
Proof.
  induction s as [|c rest IH]; [reflexivity|]. simpl.
  destruct (JS.is_space c) eqn:Hc; [exact IH|]. simpl. now rewrite Hc.
Qed.

Lemma trimEnd_fixed (s : string) : JS.trimEnd (JS.trimEnd s) = JS.trimEnd s.
Proof.
  induction s as [|c rest IH]; [reflexivity|]. simpl.
  destruct (JS.is_space c && String.eqb (JS.trimEnd rest) "")%bool eqn:Hc;
    [reflexivity|].
  simpl. now rewrite IH, Hc.
Qed.

Lemma trimStart_length (s : string) :
  String.length (JS.trimStart s) <= String.length s.
Proof.
  induction s as [|c rest IH]; simpl; [lia|].
  destruct (JS.is_space c); simpl; lia.
Qed.

Lemma trimStart_trimEnd (s : string) :
  JS.trimStart s = s -> JS.trimStart (JS.trimEnd s) = JS.trimEnd s.
Proof.
  destruct s as [|c rest]; [reflexivity|]. simpl.
  destruct (JS.is_space c) eqn:Hc.
  - intros E. pose proof (trimStart_length rest) as Hlen.
    rewrite E in Hlen. simpl in Hlen. lia.
  - intros _. simpl. now rewrite Hc.
Qed.

(** Trimming twice is trimming once. *)
Lemma trim_fixed (s : string) : JS.trim (JS.trim s) = JS.trim s.
Proof.
  unfold JS.trim.
  rewrite (trimStart_trimEnd (JS.trimStart s) (trimStart_fixed s)).
  apply trimEnd_fixed.
Qed.

(** A submission that gets past [IntentBar] hands [sendIntent] the trimmed
    text, which is not empty, under a [connected] signal. *)
Lemma submit_hook_nonblank (a : AppState) :
  hook (fst (App.submit a)) = hook a
  \/ (status (hook a) = connected /\ JS.trim (value a) <> ""
      /\ hook (fst (App.submit a))
         = fst (sendIntent (JS.trim (value a)) (hook a))).
Proof.
  unfold App.submit, IntentBar.handleSubmit.
  destruct (negb _ || App.disabled a)%bool eqn:Hg; [now left|].
  apply orb_false_elim in Hg as [Hv Hd]. right. split; [|split].
  - unfold App.disabled in Hd. now destruct (status (hook a)).
  - intros E. rewrite E in Hv. discriminate Hv.
  - unfold App.handleSubmit.
    now destruct (sendIntent (JS.trim (value a)) (hook a)) as [h' []].
Qed.

(** What [sendIntent] does to the wire: nothing, or one more frame, the
    intent message, at the end of one socket's frames. *)
Lemma sendIntent_wire (intent : string) (h : Hook) :
  sent_frames (fst (sendIntent intent h)) = sent_frames h
  \/ exists before behind,
       sent_frames h = before ++ behind
       /\ sent_frames (fst (sendIntent intent h))
          = before ++ [JS.JSON_stringify (intent_message intent)] ++ behind.
Proof.
  unfold sendIntent, current_send. simpl.
  destruct (wsRef h) as [i|]; [|now left].
  destruct (sockets h !! i) as [s|] eqn:Hi; [|now left].
  unfold WebSocket.send. destruct (readyState s) eqn:Hr; simpl;
    try (left; unfold sent_frames; simpl; now rewrite ?(list_insert_id _ _ _ Hi)).
  right. unfold sent_frames. simpl.
  pose proof (lookup_lt_Some _ _ _ Hi) as Hlt.
  exists (concat (sent <$> take i (sockets h)) ++ sent s),
         (concat (sent <$> drop (S i) (sockets h))).
  split.
  - etransitivity;
      [apply (f_equal (fun l => concat (sent <$> l))); symmetry;
       apply (take_drop_middle _ i s Hi)|].
    rewrite fmap_app, fmap_cons, concat_app. simpl. now rewrite app_assoc.
  - rewrite insert_take_drop by assumption.
    rewrite fmap_app, fmap_cons, concat_app. simpl.
    now rewrite <- !app_assoc.
Qed.

Lemma step_wire (e : Event) (a a' : AppState) :
  step e a = Some a' ->
  sent_frames (hook a') = sent_frames (hook a)
  \/ (e = Submit /\ exists before behind f,
        trimmed_intent f /\ sent_frames (hook a) = before ++ behind
        /\ sent_frames (hook a') = before ++ [f] ++ behind).
Proof.
  intros Hs. destruct (is_Submit e) eqn:He.
  - destruct e; try discriminate He. simpl in Hs. injection Hs as <-.
    destruct (submit_hook_nonblank a) as [-> | (_ & Hnb & ->)]; [now left|].
    destruct (sendIntent_wire (JS.trim (value a)) (hook a))
      as [E | (before & behind & E1 & E2)]; [now left|right].
    split; [reflexivity|]. exists before, behind. eexists.
    split; [|split; [exact E1|exact E2]].
    exists (JS.trim (value a)). split; [reflexivity|].
    split; [apply trim_fixed|exact Hnb].
  - left. apply step_hook_step in Hs; [|assumption].
    now destruct (hook_step_effect e _ _ Hs) as (_ & _ & _ & _ & Hw).
Qed.

Lemma wire_extends_refl (l : list WebSocket.t) : wire_extends l l.
Proof. intros i s Hs. exists s. split; [exact Hs|reflexivity]. Qed.

Lemma wire_extends_trans (l1 l2 l3 : list WebSocket.t) :
  wire_extends l1 l2 -> wire_extends l2 l3 -> wire_extends l1 l3.
Proof.
  intros H12 H23 i s Hs. destruct (H12 i s Hs) as (s2 & Hs2 & Hp2).
  destruct (H23 i s2 Hs2) as (s3 & Hs3 & Hp3).
  exists s3. split; [exact Hs3|]. now transitivity (sent s2).
Qed.

(** Sockets whose sent frames are those of [l], socket by socket, followed
    by further sockets. *)
Lemma wire_extends_fmap (l l' : list WebSocket.t) (more : list (list JS.Frame)) :
  sent <$> l' = (sent <$> l) ++ more -> wire_extends l l'.
Proof.
  intros E i s Hs.
  assert (H : (sent <$> l') !! i = Some (sent s)).
  { rewrite E. apply lookup_app_l_Some. now rewrite list_lookup_fmap, Hs. }
  apply list_lookup_fmap_Some in H as (s' & Hsent & Hs').
  exists s'. split; [exact Hs'|]. now rewrite Hsent.
Qed.

Lemma sent_insert_ready (l : list WebSocket.t) (ws : nat) (s : WebSocket.t)
    (r : ReadyState) :
  l !! ws = Some s -> sent <$> <[ws := set_readyState r s]> l = sent <$> l.
Proof.
  intros Hs. rewrite list_fmap_insert. simpl.
  apply list_insert_id. now rewrite list_lookup_fmap, Hs.
Qed.

Lemma connect_wire (h : Hook) : wire_extends (sockets h) (sockets (connect h)).
Proof.
  unfold connect. destruct (current_is_open h); [apply wire_extends_refl|].
  simpl. apply (wire_extends_fmap _ _ [[]]). now rewrite fmap_app.
Qed.

(** No event other than a submission touches a frame already sent. *)
Lemma hook_step_wire (e : Event) (h h' : Hook) :
  hook_step e h = Some h' -> wire_extends (sockets h) (sockets h').
Proof.
  intros Hs. destruct e; try rewrite error_is_close in Hs; simpl in Hs.
  - injection Hs as <-. apply connect_wire.
  - injection Hs as <-. unfold effect_cleanup.
    destruct (wsRef h) as [i|]; [|apply wire_extends_refl]. simpl.
    apply (wire_extends_fmap _ _ []). now rewrite sent_alter_close, app_nil_r.
  - apply deliver_Some in Hs as (s & Hws & _ & ->). simpl.
    apply (wire_extends_fmap _ _ []).
    now rewrite (sent_insert_ready _ _ _ _ Hws), app_nil_r.
  - apply deliver_Some in Hs as (s & Hws & _ & ->).
    destruct (ws_onmessage_conn data
                (set_sockets (<[ws:=set_readyState OPEN s]> (sockets h)) h))
      as (_ & _ & -> & _).
    simpl. apply (wire_extends_fmap _ _ []).
    now rewrite (sent_insert_ready _ _ _ _ Hws), app_nil_r.
  - apply deliver_Some in Hs as (s & Hws & _ & ->). simpl.
    apply (wire_extends_fmap _ _ []).
    now rewrite (sent_insert_ready _ _ _ _ Hws), app_nil_r.
  - apply deliver_Some in Hs as (s & Hws & _ & ->). simpl.
    apply (wire_extends_fmap _ _ []).
    now rewrite (sent_insert_ready _ _ _ _ Hws), app_nil_r.
  - destruct (timers h !! k) as [due|]; [|discriminate].
    destruct (due <=? now h)%Z; [|discriminate]. injection Hs as <-.
    apply (connect_wire (set_timers (delete k (timers h)) h)).
  - destruct (0 <=? dt)%Z; [|discriminate]. injection Hs as <-.
    apply wire_extends_refl.
  - injection Hs as <-. apply wire_extends_refl.
  - injection Hs as <-. apply wire_extends_refl.
  - injection Hs as <-. apply wire_extends_refl.
Qed.

Lemma sendIntent_extends (intent : string) (h : Hook) :
  wire_extends (sockets h) (sockets (fst (sendIntent intent h))).
Proof.
  unfold sendIntent, current_send. simpl.
  destruct (wsRef h) as [i|]; [|apply wire_extends_refl].
  destruct (sockets h !! i) as [s|] eqn:Hi; [|apply wire_extends_refl].
  destruct (WebSocket.send _ s) as [s'|] eqn:Hsend; [|apply wire_extends_refl].
  simpl. intros j t Hj. destruct (decide (i = j)) as [<-|Hne].
  - exists s'. split.
    + apply list_lookup_insert_eq. now apply lookup_lt_Some in Hi.
    + rewrite Hi in Hj. injection Hj as <-. unfold WebSocket.send in Hsend.
      destruct (readyState s); try discriminate; injection Hsend as <-;
        simpl; try reflexivity.
      now apply prefix_app_r.
  - exists t. split; [now rewrite list_lookup_insert_ne|reflexivity].
Qed.

Lemma step_extends (e : Event) (a a' : AppState) :
  step e a = Some a' -> wire_extends (sockets (hook a)) (sockets (hook a')).
Proof.
  intros Hs. destruct (is_Submit e) eqn:He.
  - destruct e; try discriminate He. simpl in Hs. injection Hs as <-.
    destruct (submit_hook a) as [-> | [_ ->]];
      [apply wire_extends_refl|apply sendIntent_extends].
  - apply step_hook_step in Hs; [|assumption]. now apply (hook_step_wire e).
Qed.

(** X6.  Every frame the hook puts on the wire is an intent message,
    [{type: "intent", payload}], whose payload is not empty and carries no
    white space at either end.  Nothing already sent is altered: along any
    run every socket stays in place and its sent frames are only extended
    at the end.  A run sends at most one frame per submission. *)
Theorem only_trimmed_intents_reach_the_wire
    (evs : list Event) (a a' : AppState) :
  Forall trimmed_intent (sent_frames (hook a)) ->
  run evs a = Some a' ->
  Forall trimmed_intent (sent_frames (hook a'))
  /\ length (sent_frames (hook a)) <= length (sent_frames (hook a'))
  /\ length (sent_frames (hook a'))
     <= length (sent_frames (hook a)) + count_events is_Submit evs
  /\ wire_extends (sockets (hook a)) (sockets (hook a')).
Proof.
  revert a. induction evs as [|e evs IH]; intros a Hall Hrun.
  - injection Hrun as <-. simpl.
    split; [assumption|]. split; [lia|]. split; [lia|apply wire_extends_refl].
  - cbn [run] in Hrun. destruct (step e a) as [a1|] eqn:Hs; [|discriminate].
    cbn [count_events]. pose proof (step_extends e a a1 Hs) as Hext.
    destruct (step_wire e a a1 Hs) as [E | (-> & before & behind & f & Hf & E1 & E2)].
    + rewrite <- E in Hall. destruct (IH a1 Hall Hrun) as (H1 & H2 & H3 & H4).
      rewrite E in H2, H3.
      split; [assumption|]. split; [lia|]. split; [lia|].
      now apply (wire_extends_trans _ (sockets (hook a1))).
    + assert (Hall1 : Forall trimmed_intent (sent_frames (hook a1))).
      { rewrite E2. rewrite E1 in Hall. apply Forall_app in Hall as [Ha Hb].
        apply Forall_app. split; [assumption|]. now constructor. }
      destruct (IH a1 Hall1 Hrun) as (H1 & H2 & H3 & H4).
      rewrite E2 in H2, H3. rewrite E1. rewrite !length_app in *.
      simpl in *.
      split; [assumption|]. split; [lia|]. split; [lia|].
      now apply (wire_extends_trans _ (sockets (hook a1))).
Qed.

(** ** Submitting *)

Lemma ready_sockets_eq (h h' : Hook) (i : nat) :
  sockets h' = sockets h -> ready h' i = ready h i.
Proof. intros E. unfold ready. now rewrite E. Qed.

Lemma ready_after_close_not_connecting (h : Hook) (j i : nat) :
  ready (set_sockets (alter WebSocket.close j (sockets h)) h) i = Some CONNECTING ->
  ready h i = Some CONNECTING.
Proof.
  unfold ready. simpl. destruct (decide (j = i)) as [<-|Hne].
  - rewrite list_lookup_alter_eq. destruct (sockets h !! j) as [s|]; simpl; [|auto].
    unfold WebSocket.close. destruct (readyState s) eqn:E; simpl; congruence.
  - now rewrite list_lookup_alter_ne.
Qed.

Lemma ready_deliver (h : Hook) (ws j : nat) (s : WebSocket.t)
    (after : ReadyState) (k : Hook -> Hook) :
  (forall x, sockets (k x) = sockets x) ->
  sockets h !! ws = Some s ->
  ready (k (set_sockets (<[ws := set_readyState after s]> (sockets h)) h)) j
  = if decide (ws = j) then Some after else ready h j.
Proof.
  intros Hk Hs. rewrite (ready_sockets_eq _ _ j (Hk _)).
  now apply ready_insert.
Qed.

(** No event but the effect body and a firing timer makes a socket
    connecting, and the open event ends it for its socket. *)
Lemma connecting_was_connecting (e : Event) (a a' : AppState) :
  is_Mount e = false -> is_TimerFire e = false -> step e a = Some a' ->
  wsRef (hook a') = wsRef (hook a)
  /\ forall i, ready (hook a') i = Some CONNECTING ->
       ready (hook a) i = Some CONNECTING /\ e <> SocketOpen i.
Proof.
  intros Hm Hf Hs. destruct (is_Submit e) eqn:He.
  - destruct e; try discriminate He. simpl in Hs. injection Hs as <-.
    destruct (submit_conn a) as (_ & Hr & _ & _ & Hrd).
    destruct (ready_fmap_eq _ _ Hrd) as [_ Hready].
    split; [exact Hr|]. intros i Hi. rewrite Hready in Hi. now split.
  - apply step_hook_step in Hs; [|assumption].
    destruct e; try discriminate Hm; try discriminate Hf; try discriminate He;
      try rewrite error_is_close in Hs; simpl in Hs.
    + injection Hs as <-. unfold effect_cleanup.
      destruct (wsRef (hook a)) as [j|] eqn:Hr; simpl; [|now split].
      split; [exact Hr|]. intros i Hi. split; [|discriminate].
      now apply (ready_after_close_not_connecting (hook a) j i).
    + apply deliver_Some in Hs as (s & Hws & _ & ->). split; [reflexivity|].
      intros i Hi.
      rewrite (ready_deliver _ _ _ _ _ ws_onopen (fun x => eq_refl) Hws) in Hi.
      destruct (decide (ws = i)) as [->|Hne]; [discriminate|].
      split; [exact Hi|]. intros [= E]. now apply Hne.
    + apply deliver_Some in Hs as (s & Hws & _ & ->).
      destruct (ws_onmessage_conn data
                  (set_sockets (<[ws:=set_readyState OPEN s]> (sockets (hook a)))
                     (hook a)))
        as (_ & Hr & Hsock & _).
      split; [exact Hr|]. intros i Hi.
      rewrite (ready_deliver _ _ _ _ _ (ws_onmessage data)
                 (fun x => proj1 (proj2 (proj2 (ws_onmessage_conn data x)))) Hws)
        in Hi.
      destruct (decide (ws = i)); [discriminate|]. now split.
    + apply deliver_Some in Hs as (s & Hws & _ & ->). split; [reflexivity|].
      intros i Hi.
      rewrite (ready_deliver _ _ _ _ _ ws_onclose (fun x => eq_refl) Hws) in Hi.
      destruct (decide (ws = i)); [discriminate|]. now split.
    + apply deliver_Some in Hs as (s & Hws & _ & ->). split; [reflexivity|].
      intros i Hi.
      rewrite (ready_deliver _ _ _ _ _ ws_onclose (fun x => eq_refl) Hws) in Hi.
      destruct (decide (ws = i)); [discriminate|]. now split.
    + destruct (0 <=? dt)%Z; [|discriminate]. injection Hs as <-.
      split; [reflexivity|]. intros i Hi. now split.
    + injection Hs as <-. split; [reflexivity|]. intros i Hi. now split.
    + injection Hs as <-. split; [reflexivity|]. intros i Hi. now split.
Qed.

Lemma connected_means_opened_step (e : Event) (a a' : AppState) :
  chain (hook a) -> connected_means_opened (hook a) ->
  is_Mount e = false -> step e a = Some a' ->
  connected_means_opened (hook a').
Proof.
  intros Hc Hinv Hm Hs Hst i Hr Hready.
  pose proof (step_status e a a' Hs) as Hsa. unfold status_after in Hsa.
  destruct (is_TimerFire e) eqn:Hf.
  - destruct e; try discriminate Hf. simpl in Hsa.
    destruct Hc as [n [Hl | [due Hw]]].
    + simpl in Hs. destruct Hl as (_ & _ & _ & _ & Ht). rewrite Ht in Hs.
      discriminate.
    + destruct Hw as (_ & _ & _ & _ & Hd). congruence.
  - destruct (connecting_was_connecting e a a' Hm Hf Hs) as [Hrsame Hback].
    destruct (Hback i Hready) as [Hwas Hnot].
    rewrite Hrsame in Hr.
    destruct (is_SocketOpen e) eqn:Ho.
    + destruct e; try discriminate Ho.
      destruct Hc as [n [Hl | [due Hw]]].
      * destruct (live_step n _ a a' Hl Hm Hs) as [Hcur _].
        destruct Hl as (_ & Hrn & _). specialize (Hcur ws eq_refl).
        apply Hnot. congruence.
      * now destruct (waiting_step n due _ a a' Hw Hm Hs) as [[=] _].
    + destruct (ends_connection e); [congruence|].
      rewrite Hsa in Hst. exact (Hinv Hst i Hr Hwas).
Qed.

Lemma reachable_connected_means_opened (a : AppState) :
  reachable a -> connected_means_opened (hook a).
Proof.
  intros (evs & Hlife & Hrun). cbn [run] in Hrun.
  change (step Mount initial)
    with (Some (mkApp (effect_mount useWebSocket) false "")) in Hrun.
  assert (Hgen : forall evs b b',
            chain (hook b) -> connected_means_opened (hook b) ->
            life evs -> run evs b = Some b' -> connected_means_opened (hook b')).
  { clear. induction evs as [|e evs IH]; intros b b' Hc Hinv Hlife Hrun.
    - now injection Hrun as <-.
    - apply life_cons in Hlife as [Hm Hlife]. cbn [run] in Hrun.
      destruct (step e b) as [b1|] eqn:Hs; [|discriminate].
      apply (IH b1 b'); [|now apply (connected_means_opened_step e b)|assumption..].
      now apply (chain_step e b). }
  apply (Hgen evs (mkApp (effect_mount useWebSocket) false "") a);
    [exists 0; left; apply chain_mount| |assumption..].
  intros Hst. discriminate Hst.
Qed.

(** X7.  In a life of the hook a submission never throws: whenever the
    signal lets [IntentBar] pass a text on, the current socket has been
    opened, so [send] transmits or silently drops the frame and the
    InvalidStateError of a socket still connecting cannot arise. *)
Theorem submit_never_throws_in_a_life (a : AppState) :
  reachable a ->
  connected_means_opened (hook a) /\ snd (App.submit a) = Normal.
Proof.
  intros Hreach. pose proof (reachable_connected_means_opened a Hreach) as Hinv.
  split; [exact Hinv|].
  unfold App.submit, IntentBar.handleSubmit.
  destruct (negb _ || App.disabled a)%bool eqn:Hg; [reflexivity|].
  apply orb_false_elim in Hg as [_ Hd].
  assert (Hst : status (hook a) = connected).
  { unfold App.disabled in Hd. now destruct (status (hook a)). }
  unfold App.handleSubmit, sendIntent, current_send. simpl.
  destruct (wsRef (hook a)) as [i|] eqn:Hr; [|reflexivity].
  destruct (sockets (hook a) !! i) as [s|] eqn:Hi; [|reflexivity].
  unfold WebSocket.send. destruct (readyState s) eqn:Hrs; try reflexivity.
  exfalso. apply (Hinv Hst i Hr). now rewrite (ready_Some _ _ _ Hi), Hrs.
Qed.

(** X8.  A submission with a text that is not blank, under a [connected]
    signal and on an open current socket, does all of this at once: the
    history and the result are cleared, exactly the intent message with the
    trimmed text is appended to that socket's frames, the HUD is shown and
    the input is emptied; nothing else changes. *)
Theorem submit_on_open_socket
    (a : AppState) (i : nat) (s : WebSocket.t) :
  status (hook a) = connected -> JS.trim (value a) <> "" ->
  wsRef (hook a) = Some i -> sockets (hook a) !! i = Some s ->
  readyState s = OPEN ->
  App.submit a
  = ({| hook :=
          {| status := connected; updates := []; summary := JS.Null;
             wsRef := Some i;
             sockets :=
               <[i := WebSocket.mk OPEN
                        (sent s ++ [JS.JSON_stringify
                                      (intent_message (JS.trim (value a)))])]>
                 (sockets (hook a));
             timers := timers (hook a); now := now (hook a) |};
        showHUD := true; value := "" |}, Normal).
Proof.
  intros Hst Hnb Hr Hi Hrs.
  unfold App.submit, IntentBar.handleSubmit, App.disabled. rewrite Hst. simpl.
  destruct (String.eqb_spec (JS.trim (value a)) "") as [E|_]; [contradiction|].
  simpl. unfold App.handleSubmit, sendIntent, current_send. simpl.
  rewrite Hr, Hi. unfold WebSocket.send. rewrite Hrs. simpl.
  unfold set_sockets, setSummary, setUpdates. simpl. now rewrite Hst, Hr.
Qed.

Lemma step_showHUD (e : Event) (a a' : AppState) :
  step e a = Some a' -> showHUD a' = true ->
  showHUD a = true \/ (e = Submit /\ status (hook a) = connected
                                  /\ JS.trim (value a) <> "").
Proof.
  intros Hs Hshown.
  assert (Hhook : forall h', Some (mkApp h' (showHUD a) (value a)) = Some a' ->
                             showHUD a = true).
  { intros h' [= <-]. exact Hshown. }
  destruct e; simpl in Hs.
  - left. now apply (Hhook (effect_mount (hook a))).
  - left. now apply (Hhook (effect_cleanup (hook a))).
  - left. destruct (deliver _ _ _ _ _) as [h'|]; [now apply (Hhook h')|discriminate].
  - left. destruct (deliver _ _ _ _ _) as [h'|]; [now apply (Hhook h')|discriminate].
  - left. destruct (deliver _ _ _ _ _) as [h'|]; [now apply (Hhook h')|discriminate].
  - left. destruct (deliver _ _ _ _ _) as [h'|]; [now apply (Hhook h')|discriminate].
  - left. destruct (timers (hook a) !! k) as [due|]; [|discriminate].
    destruct (due <=? now (hook a))%Z; [|discriminate].
    now apply (Hhook (connect (set_timers (delete k (timers (hook a))) (hook a)))).
  - left. destruct (0 <=? dt)%Z; [|discriminate].
    now apply (Hhook (set_now (now (hook a) + dt) (hook a))).
  - left. destruct (App.disabled a); [discriminate|].
    injection Hs as <-. exact Hshown.
  - injection Hs as <-. revert Hshown.
    unfold App.submit, IntentBar.handleSubmit.
    destruct (negb _ || App.disabled a)%bool eqn:Hg; [now left|].
    apply orb_false_elim in Hg as [Hv Hd]. intros _. right.
    split; [reflexivity|]. split.
    + unfold App.disabled in Hd. now destruct (status (hook a)).
    + intros E. rewrite E in Hv. discriminate Hv.
  - injection Hs as <-. discriminate Hshown.
Qed.

(** X9.  The HUD is never on display before a submission has gone through:
    if it is shown at the end of a run it was shown at the start, or the
    run contains a submission.  Closing it hides it whatever the state. *)
Theorem HUD_shown_only_after_a_submission
    (evs : list Event) (a a' : AppState) :
  run evs a = Some a' -> showHUD a' = true ->
  (showHUD a = true \/ 0 < count_events is_Submit evs)
  /\ (forall b b', step CloseHUD b = Some b' -> showHUD b' = false).
Proof.
  intros Hrun Hshown. split; [|intros b b' [= <-]; reflexivity].
  revert a Hrun. induction evs as [|e evs IH]; intros a Hrun.
  - injection Hrun as <-. now left.
  - cbn [run] in Hrun. destruct (step e a) as [a1|] eqn:Hs; [|discriminate].
    cbn [count_events]. destruct (IH a1 Hrun) as [H1 | Hpos]; [|right; lia].
    destruct (step_showHUD e a a1 Hs H1) as [H0 | (-> & _)]; [now left|].
    right. simpl. lia.
Qed.

(** ** What the components show *)

Lemma trim_nonempty_value (v : string) : JS.trim v <> "" -> v <> "".
Proof. intros H ->. now apply H. Qed.

(** X10.  The submit chip of [IntentBar] is shown exactly when submitting
    does something: with the chip hidden [handleSubmit] returns without
    calling [onSubmit], with the chip shown it calls [onSubmit] on the
    trimmed text and empties the input unless that call throws.  The chip
    and the keyboard hint are never shown together, and the bar is disabled
    exactly when the header reads [offline]. *)
Theorem chip_shown_iff_submit_passes
    (onSubmit : string -> AppState -> AppState * Completion)
    (disabled : bool) (a : AppState) :
  (IntentBar.submitChip disabled a = false ->
     IntentBar.handleSubmit onSubmit disabled a = (a, Normal))
  /\ (IntentBar.submitChip disabled a = true ->
       IntentBar.handleSubmit onSubmit disabled a
       = match onSubmit (JS.trim (value a)) a with
         | (a', Normal) => (mkApp (hook a') (showHUD a') "", Normal)
         | (a', Throw) => (a', Throw)
         end)
  /\ (IntentBar.submitChip disabled a = true -> IntentBar.shortcutHint a = false)
  /\ (App.disabled a = true <-> App.headerText a = "offline").
Proof.
  unfold IntentBar.submitChip, IntentBar.handleSubmit, IntentBar.shortcutHint.
  split; [|split; [|split]].
  - intros Hc.
    destruct (JS.truthy (JS.Str (JS.trim (value a)))), disabled;
      simpl in *; congruence.
  - intros [Hv Hd]%andb_prop. rewrite Hv. apply negb_true_iff in Hd.
    now rewrite Hd.
  - intros [Hv _]%andb_prop. simpl in Hv |- *.
    apply negb_true_iff in Hv. rewrite negb_false_iff.
    apply negb_true_iff. apply String.eqb_neq.
    apply trim_nonempty_value. now apply String.eqb_neq.
  - unfold App.disabled, App.headerText.
    destruct (Status_eqb (status (hook a)) connected); simpl; split;
      congruence.
Qed.



Lemma table_get_STATUS_COLORS (st c : string) :
  AgentHUD.table_get AgentHUD.STATUS_COLORS st = Some c ->
  (st = "pending" /\ c = "bg-zen-muted/40")
  \/ (st = "running" /\ c = "bg-yellow-500/80 animate-pulse")
  \/ (st = "done" /\ c = "bg-emerald-500/80")
  \/ (st = "failed" /\ c = "bg-red-500/80").
Proof.
  unfold AgentHUD.STATUS_COLORS. cbn [AgentHUD.table_get].
  destruct (String.eqb_spec "pending" st) as [<-|_]; [intros [= <-]; tauto|].
  destruct (String.eqb_spec "running" st) as [<-|_]; [intros [= <-]; tauto|].
  destruct (String.eqb_spec "done" st) as [<-|_]; [intros [= <-]; tauto|].
  destruct (String.eqb_spec "failed" st) as [<-|_]; [intros [= <-]; tauto|].
  discriminate.
Qed.

Lemma inherited_member_iff (st : string) :
  existsb (String.eqb st) AgentHUD.Object_prototype_members = true
  <-> In st AgentHUD.Object_prototype_members.
Proof.
  rewrite existsb_exists. split.
  - intros (x & Hin & E). apply String.eqb_eq in E. now subst.
  - intros Hin. exists st. split; [exact Hin|apply String.eqb_refl].
Qed.

(** X12.  For a sub-task whose status is a string: its text is struck
    through exactly when the status is [done], which is exactly when its dot
    has the colour of [done]; a status the table does not list gets the dot
    of [pending], unless it names a member objects inherit, and for exactly
    those names the table yields no class string at all. *)
Theorem done_is_struck_and_unknown_is_pending (st : string) :
  (AgentHUD.textClass (JS.Str st) = "text-zen-muted line-through" <-> st = "done")
  /\ (AgentHUD.statusColor st = Some "bg-emerald-500/80" <-> st = "done")
  /\ (st <> "running" -> st <> "done" -> st <> "failed" ->
      ~ In st AgentHUD.Object_prototype_members ->
      AgentHUD.statusColor st = AgentHUD.statusColor "pending")
  /\ (AgentHUD.statusColor st = None <-> In st AgentHUD.Object_prototype_members).
Proof.
  assert (Hown : forall c, AgentHUD.table_get AgentHUD.STATUS_COLORS st = Some c ->
                           ~ In st AgentHUD.Object_prototype_members).
  { intros c Hc Hin.
    destruct (table_get_STATUS_COLORS st c Hc)
      as [[-> _] | [[-> _] | [[-> _] | [-> _]]]];
      simpl in Hin; intuition discriminate. }
  split; [|split; [|split]].
  - unfold AgentHUD.textClass. simpl.
    destruct (String.eqb_spec st "done") as [->|Hne]; split; auto;
      try discriminate; intros; contradiction.
  - unfold AgentHUD.statusColor.
    destruct (AgentHUD.table_get AgentHUD.STATUS_COLORS st) as [c|] eqn:Hc.
    + destruct (table_get_STATUS_COLORS st c Hc)
        as [[-> ->] | [[-> ->] | [[-> ->] | [-> ->]]]];
        split; auto; discriminate.
    + split.
      * destruct (existsb _ _); discriminate.
      * intros ->. discriminate Hc.
  - intros H1 H2 H3 Hni. unfold AgentHUD.statusColor.
    destruct (AgentHUD.table_get AgentHUD.STATUS_COLORS st) as [c|] eqn:Hc.
    + destruct (table_get_STATUS_COLORS st c Hc)
        as [[-> ->] | [[-> ->] | [[-> ->] | [-> ->]]]];
        [reflexivity|contradiction..].
    + destruct (existsb _ _) eqn:E; [|reflexivity].
      apply inherited_member_iff in E. contradiction.
  - unfold AgentHUD.statusColor.
    destruct (AgentHUD.table_get AgentHUD.STATUS_COLORS st) as [c|] eqn:Hc.
    + split; [discriminate|]. intros Hin. now destruct (Hown c eq_refl).
    + rewrite <- inherited_member_iff.
      destruct (existsb _ _); split; congruence.
Qed.

(** ** The further properties at concrete inputs *)

Lemma history_is_suffix_of_received_witness :
  run two_tasks initial = Some (after two_tasks)
  /\ updates (hook (after two_tasks)) = [update_planning]
  /\ received_updates two_tasks
     = [update_planning; update_browsing; update_planning]
  /\ updates (hook (after two_tasks))
     `suffix_of` (updates (hook initial) ++ received_updates two_tasks).
Proof.
  assert (H : run two_tasks initial = Some (after two_tasks)) by by_evaluation.
  split; [exact H|]. split; [by_evaluation|]. split; [by_evaluation|].
  exact (proj1 (history_is_suffix_of_received _ _ _ H)).
Defined.

Lemma history_entries_are_state_updates_witness :
  Forall state_update_entry (updates (hook initial))
  /\ run task_session initial = Some (after task_session)
  /\ Forall state_update_entry (updates (hook (after task_session))).
Proof.
  assert (H0 : Forall state_update_entry (updates (hook initial)))
    by constructor.
  assert (H : run task_session initial = Some (after task_session))
    by by_evaluation.
  split; [exact H0|]. split; [exact H|].
  exact (proj1 (history_entries_are_state_updates _ _ _ H0 H)).
Defined.

Lemma result_comes_from_a_result_frame_witness :
  run task_session initial = Some (after task_session)
  /\ summary (hook (after task_session)) = JS.Str "Found RTX 5070 at $599"
  /\ (summary (hook (after task_session)) = summary (hook initial)
      \/ summary (hook (after task_session)) = JS.Null
      \/ exists ws data, SocketMessage ws data ∈ task_session
            /\ result_summary_of data = Some (summary (hook (after task_session)))).
Proof.
  assert (H : run task_session initial = Some (after task_session))
    by by_evaluation.
  split; [exact H|]. split; [by_evaluation|].
  exact (proj1 (result_comes_from_a_result_frame _ _ _ H)).
Defined.

Lemma every_close_times_one_reconnection_witness :
  run failing_twice initial = Some (after failing_twice)
  /\ length (timers (hook (after failing_twice)))
     + count_events is_TimerFire failing_twice
     = length (timers (hook initial)) + count_events ends_connection failing_twice.
Proof.
  assert (H : run failing_twice initial = Some (after failing_twice))
    by by_evaluation.
  split; [exact H|].
  exact (proj1 (every_close_times_one_reconnection _ _ _ H)).
Defined.

Lemma one_socket_per_attempt_witness :
  run (tail failing_twice) (mkApp (effect_mount useWebSocket) false "")
  = Some (after failing_twice)
  /\ life (tail failing_twice)
  /\ count_events is_TimerFire (tail failing_twice) = 1
  /\ length (sockets (hook (after failing_twice)))
     = 1 + count_events is_TimerFire (tail failing_twice).
Proof.
  assert (H : run (tail failing_twice) (mkApp (effect_mount useWebSocket) false "")
              = Some (after failing_twice)) by by_evaluation.
  assert (Hl : life (tail failing_twice)) by by_evaluation.
  split; [exact H|]. split; [exact Hl|]. split; [by_evaluation|].
  exact (proj2 (proj2 (one_socket_per_attempt _ _ _ H)) eq_refl Hl).
Defined.

Lemma only_trimmed_intents_reach_the_wire_witness :
  Forall trimmed_intent (sent_frames (hook initial))
  /\ run task_session initial = Some (after task_session)
  /\ sent_frames (hook (after task_session))
     = [JS.JSON_stringify (intent_message "find cheapest gpu")]
  /\ Forall trimmed_intent (sent_frames (hook (after task_session)))
  /\ run [Mount; SocketOpen 0; Change "find cheapest gpu"; Submit] initial
     = Some submitted
  /\ Forall trimmed_intent (sent_frames (hook submitted))
  /\ run (task_frames
          ++ [Change "next"; Submit; SocketMessage 0 (JS.Json update_planning)])
         submitted
     = Some (after two_tasks)
  /\ sent_frames (hook (after two_tasks))
     = [JS.JSON_stringify (intent_message "find cheapest gpu");
        JS.JSON_stringify (intent_message "next")]
  /\ wire_extends (sockets (hook submitted)) (sockets (hook (after two_tasks))).
Proof.
  assert (H0 : Forall trimmed_intent (sent_frames (hook initial)))
    by constructor.
  assert (H : run task_session initial = Some (after task_session))
    by by_evaluation.
  assert (Hs : run [Mount; SocketOpen 0; Change "find cheapest gpu"; Submit]
                 initial = Some submitted) by by_evaluation.
  assert (Hn : run (task_frames
                    ++ [Change "next"; Submit;
                        SocketMessage 0 (JS.Json update_planning)]) submitted
               = Some (after two_tasks)) by by_evaluation.
  pose proof (proj1 (only_trimmed_intents_reach_the_wire _ _ _ H0 Hs)) as H1.
  split; [exact H0|]. split; [exact H|]. split; [by_evaluation|].
  split; [exact (proj1 (only_trimmed_intents_reach_the_wire _ _ _ H0 H))|].
  split; [exact Hs|]. split; [exact H1|]. split; [exact Hn|].
  split; [by_evaluation|].
  exact (proj2 (proj2 (proj2
           (only_trimmed_intents_reach_the_wire _ _ _ H1 Hn)))).
Defined.

Lemma reachable_typed : reachable typed.
Proof.
  exists [SocketOpen 0; Change "  find cheapest gpu "]. split; by_evaluation.
Defined.

Lemma submit_never_throws_in_a_life_witness :
  reachable typed /\ snd (App.submit typed) = Normal.
Proof.
  split; [exact reachable_typed|].
  exact (proj2 (submit_never_throws_in_a_life typed reachable_typed)).
Defined.

Lemma submit_on_open_socket_witness :
  status (hook typed) = connected /\ JS.trim (value typed) = "find cheapest gpu"
  /\ fst (App.submit typed)
     = {| hook :=
            {| status := connected; updates := []; summary := JS.Null;
               wsRef := Some 0;
               sockets :=
                 <[0 := WebSocket.mk OPEN
                          ([] ++ [JS.JSON_stringify
                                    (intent_message (JS.trim (value typed)))])]>
                   (sockets (hook typed));
               timers := timers (hook typed); now := now (hook typed) |};
          showHUD := true; value := "" |}.
Proof.
  assert (H1 : status (hook typed) = connected) by by_evaluation.
  assert (H2 : JS.trim (value typed) <> "") by by_evaluation.
  assert (H3 : wsRef (hook typed) = Some 0) by by_evaluation.
  assert (H4 : sockets (hook typed) !! 0 = Some (WebSocket.mk OPEN []))
    by by_evaluation.
  split; [exact H1|]. split; [by_evaluation|].
  now rewrite (submit_on_open_socket typed 0 (WebSocket.mk OPEN [])
                 H1 H2 H3 H4 eq_refl).
Defined.

Lemma HUD_shown_only_after_a_submission_witness :
  run task_session initial = Some (after task_session)
  /\ showHUD (after task_session) = true
  /\ (showHUD initial = true \/ 0 < count_events is_Submit task_session).
Proof.
  assert (H : run task_session initial = Some (after task_session))
    by by_evaluation.
  assert (Hs : showHUD (after task_session) = true) by by_evaluation.
  split; [exact H|]. split; [exact Hs|].
  exact (proj1 (HUD_shown_only_after_a_submission _ _ _ H Hs)).
Defined.


(** ** The signal during a reconnection attempt *)

(** In a life of the hook the signal has left [connecting] once the
    current socket is not the first one. *)
Lemma reconnected_left_connecting (a : AppState) :
  reachable a ->
  forall i, wsRef (hook a) = Some i -> 0 < i -> status (hook a) <> connecting.
Proof.
  intros (evs & Hlife & Hrun). cbn [run] in Hrun.
  change (step Mount initial)
    with (Some (mkApp (effect_mount useWebSocket) false "")) in Hrun.
  assert (Hgen : forall evs b b',
            chain (hook b) ->
            (forall i, wsRef (hook b) = Some i -> 0 < i ->
                       status (hook b) <> connecting) ->
            life evs -> run evs b = Some b' ->
            forall i, wsRef (hook b') = Some i -> 0 < i ->
                      status (hook b') <> connecting).
  { clear. induction evs as [|e evs IH]; intros b b' Hc Hinv Hlife Hrun.
    - now injection Hrun as <-.
    - apply life_cons in Hlife as [Hm Hlife]. cbn [run] in Hrun.
      destruct (step e b) as [b1|] eqn:Hs; [|discriminate].
      apply (IH b1 b'); [now apply (chain_step e b)| |assumption..].
      intros i Hr Hpos Hst.
      pose proof (step_status e b b1 Hs) as Hsa. unfold status_after in Hsa.
      destruct (is_TimerFire e) eqn:Hf.
      + destruct e; try discriminate Hf. simpl in Hsa.
        destruct Hc as [n [Hl | [due Hw]]].
        * simpl in Hs. destruct Hl as (_ & _ & _ & _ & Ht). rewrite Ht in Hs.
          discriminate.
        * destruct Hw as (_ & _ & _ & _ & Hd). congruence.
      + destruct (connecting_was_connecting e b b1 Hm Hf Hs) as [Hrsame _].
        rewrite Hrsame in Hr.
        destruct (is_SocketOpen e); [congruence|].
        destruct (ends_connection e); [congruence|].
        rewrite Hsa in Hst. exact (Hinv i Hr Hpos Hst). }
  apply (Hgen evs (mkApp (effect_mount useWebSocket) false "") a);
    [exists 0; left; apply chain_mount| |assumption..].
  intros i Hr Hpos. simpl in Hr. injection Hr as <-. lia.
Qed.

(** In a life of the hook a socket that is connecting is the current one. *)
Lemma connecting_is_current (a : AppState) (i : nat) :
  reachable a -> ready (hook a) i = Some CONNECTING -> wsRef (hook a) = Some i.
Proof.
  intros Hreach Hi. destruct (reachable_chain a Hreach) as [n [Hl | [due Hw]]].
  - destruct Hl as (Hlen & Hr & Hold & _).
    destruct (decide (i = n)) as [->|Hne]; [exact Hr|].
    destruct (decide (i < n)) as [Hlt|Hge].
    + rewrite (Hold i Hlt) in Hi. discriminate.
    + rewrite ready_ge in Hi by lia. discriminate.
  - destruct Hw as (Hlen & _ & Hall & _).
    destruct (decide (i <= n)) as [Hle|Hgt].
    + rewrite (Hall i Hle) in Hi. discriminate.
    + rewrite ready_ge in Hi by lia. discriminate.
Qed.

(** C10, as the code has it.  Along any run the signal is [connecting]
    from the initial state exactly as long as no open, close or error event
    has been delivered, and once it differs from [connecting] it never is
    [connecting] again; a [disconnected] signal stays [disconnected] while
    no socket opens; [connect] does not write it.  In a life of the
    hook, where the effect runs once, a reconnection attempt leaves the
    signal [disconnected]: a firing timer constructs the attempt's socket
    under a [disconnected] signal, the signal is [disconnected] for as long
    as that socket is connecting, the only socket that can open is the
    current one, and its open event makes the signal [connected]. *)
Theorem status_leaves_connecting_for_good
    (evs : list Event) (a a' : AppState) :
  run evs a = Some a' ->
  status (hook initial) = connecting
  /\ (a = initial ->
      (status (hook a') = connecting
       <-> forallb (fun e => negb (writes_status e)) evs = true))
  /\ (status (hook a) <> connecting -> status (hook a') <> connecting)
  /\ (status (hook a) = disconnected ->
      forallb (fun e => negb (is_SocketOpen e)) evs = true ->
      status (hook a') = disconnected)
  /\ (forall h, status (connect h) = status h)
  /\ (reachable a' ->
      (forall k b, step (TimerFire k) a' = Some b ->
         status (hook b) = disconnected
         /\ wsRef (hook b) = Some (length (sockets (hook a')))
         /\ 0 < length (sockets (hook a'))
         /\ ready (hook b) (length (sockets (hook a'))) = Some CONNECTING)
      /\ (forall i, 0 < i -> ready (hook a') i = Some CONNECTING ->
            wsRef (hook a') = Some i /\ status (hook a') = disconnected)
      /\ (forall ws b, step (SocketOpen ws) a' = Some b ->
            wsRef (hook a') = Some ws
            /\ ready (hook a') ws = Some CONNECTING
            /\ ready (hook b) ws = Some OPEN
            /\ status (hook b) = connected)).
Proof.
  intros Hrun. split; [reflexivity|].
  destruct (status_along_run evs a a' Hrun) as (H1 & H2 & H3 & H4).
  split; [|split; [exact H3|split; [exact H4|split; [apply connect_status|]]]].
  { intros ->. split.
    - intros Hc. destruct (forallb _ evs) eqn:Hf; [reflexivity|].
      now destruct (H2 eq_refl).
    - intros Hf. now rewrite (H1 Hf). }
  intros Hreach. split; [|split].
  - intros k b Hs.
    destruct (reachable_chain a' Hreach) as [n [Hl | [due Hw]]].
    { simpl in Hs. destruct Hl as (_ & _ & _ & _ & Ht). rewrite Ht in Hs.
      discriminate. }
    pose proof (step_status _ _ _ Hs) as Hst. unfold status_after in Hst.
    simpl in Hst.
    destruct (waiting_step n due (TimerFire k) a' b Hw eq_refl Hs)
      as [_ [(Hw' & _) | (_ & _ & Hl' & Hsock & _)]].
    { exfalso. pose proof (fired_timer_leaves_queue k a' b Hs) as Hq.
      destruct Hw as (_ & _ & _ & Ht & _). destruct Hw' as (_ & _ & _ & Ht' & _).
      rewrite Ht, Ht' in Hq. destruct k as [|k]; [discriminate Hq|].
      simpl in Hs. rewrite Ht in Hs. discriminate Hs. }
    destruct Hw as (Hlen & _ & _ & _ & Hd).
    destruct Hl' as (_ & Hr' & _).
    split; [congruence|]. split; [now rewrite Hlen|]. split; [lia|].
    unfold ready. rewrite Hsock, lookup_app_r by lia.
    now rewrite Nat.sub_diag.
  - intros i Hpos Hi.
    pose proof (connecting_is_current a' i Hreach Hi) as Hr.
    split; [exact Hr|].
    pose proof (reconnected_left_connecting a' Hreach i Hr Hpos) as Hnc.
    pose proof (reachable_connected_means_opened a' Hreach) as Hopened.
    destruct (status (hook a')) eqn:Hst; [contradiction| |reflexivity].
    exfalso. unfold connected_means_opened in Hopened. rewrite Hst in Hopened.
    exact (Hopened eq_refl i Hr Hi).
  - intros ws b Hs.
    assert (Hcur : wsRef (hook a') = Some ws).
    { destruct (reachable_chain a' Hreach) as [n [Hl | [due Hw]]].
      - destruct (live_step n (SocketOpen ws) a' b Hl eq_refl Hs) as [Hcur _].
        destruct Hl as (_ & Hr & _). now rewrite (Hcur ws eq_refl).
      - now destruct (waiting_step n due (SocketOpen ws) a' b Hw eq_refl Hs)
          as [[=] _]. }
    split; [exact Hcur|].
    pose proof (step_status _ _ _ Hs) as Hst.
    apply step_hook_step in Hs; [|reflexivity]. simpl in Hs.
    apply deliver_Some in Hs as (s & Hws & Hg & Hb).
    split.
    { rewrite (ready_Some _ _ _ Hws). f_equal.
      now destruct (readyState s). }
    split; [|exact Hst].
    rewrite Hb, (ready_deliver _ _ _ _ _ ws_onopen (fun x => eq_refl) Hws).
    now destruct (decide (ws = ws)).
Qed.

Lemma status_leaves_connecting_for_good_witness :
  run [Mount; SocketClose 0; Elapse 3000] initial = Some reconnect_due
  /\ reachable reconnect_due
  /\ step (TimerFire 0) reconnect_due = Some reconnecting
  /\ status (hook reconnecting) = disconnected
  /\ run [Mount; SocketClose 0; Elapse 3000; TimerFire 0] initial
     = Some reconnecting
  /\ reachable reconnecting
  /\ ready (hook reconnecting) 1 = Some CONNECTING
  /\ wsRef (hook reconnecting) = Some 1
  /\ step (SocketOpen 1) reconnecting = Some reconnected
  /\ status (hook reconnected) = connected.
Proof.
  assert (H1 : run [Mount; SocketClose 0; Elapse 3000] initial
               = Some reconnect_due) by by_evaluation.
  assert (H2 : step (TimerFire 0) reconnect_due = Some reconnecting)
    by by_evaluation.
  assert (H3 : run [Mount; SocketClose 0; Elapse 3000; TimerFire 0] initial
               = Some reconnecting) by by_evaluation.
  assert (H4 : reachable reconnecting).
  { exists [SocketClose 0; Elapse 3000; TimerFire 0]. split; by_evaluation. }
  assert (H5 : ready (hook reconnecting) 1 = Some CONNECTING) by by_evaluation.
  assert (H6 : step (SocketOpen 1) reconnecting = Some reconnected)
    by by_evaluation.
  destruct (status_leaves_connecting_for_good _ _ _ H1)
    as (_ & _ & _ & _ & _ & Hdue).
  destruct (Hdue reachable_reconnect_due) as (Hfire & _ & _).
  destruct (Hfire 0 _ H2) as (Hd & _).
  destruct (status_leaves_connecting_for_good _ _ _ H3)
    as (_ & _ & _ & _ & _ & Hatt).
  destruct (Hatt H4) as (_ & Hwhile & Hopen).
  destruct (Hwhile 1 (Nat.lt_0_1) H5) as (Hcur & _).
  destruct (Hopen 1 _ H6) as (_ & _ & _ & Hc).
  split; [exact H1|]. split; [exact reachable_reconnect_due|].
  split; [exact H2|]. split; [exact Hd|]. split; [exact H3|].
  split; [exact H4|]. split; [exact H5|]. split; [exact Hcur|].
  split; [exact H6|exact Hc].
Defined.

(** C10 as stated fails.  After the effect has run twice, the close of the
    first socket times a reconnection that constructs a third socket while
    the second is still connecting.  The second socket then opens: the
    signal becomes [connected] during the reconnection attempt, whose own
    socket is still connecting. *)
Lemma signal_connected_during_an_attempt :
  exists b b',
    run [Mount; Unmount; Mount; SocketClose 0; Elapse 3000; TimerFire 0] initial
    = Some b
    /\ wsRef (hook b) = Some 2 /\ ready (hook b) 2 = Some CONNECTING
    /\ status (hook b) = disconnected
    /\ run stale_open initial = Some b'
    /\ step (SocketOpen 1) b = Some b'
    /\ wsRef (hook b') = Some 2 /\ ready (hook b') 2 = Some CONNECTING
    /\ status (hook b') = connected.
Proof.
  exists (after [Mount; Unmount; Mount; SocketClose 0; Elapse 3000; TimerFire 0]),
         (after stale_open).
  vm_compute. repeat split.
Qed.
